(** * generate_portfolio.py: the portfolio generator, embedded and verified

    The script lists the sub-directories of [docs/project], reads each
    [README.md], builds a numbered table of contents and writes the
    concatenation to [docs/PORTFOLIO.md].

    Python text is a sequence of Unicode code points, so a [str] is a list
    of code points.  The filesystem, the console and the clock are an
    explicit [world]; every function of the script that touches them lives
    in a small state-and-exception monad [M]. *)

From Stdlib Require Import String Ascii.
From Stdlib Require Import Arith NArith List Bool Lia.
From Stdlib Require Import Sorting.Sorted Sorting.Permutation DecimalN.
Import ListNotations.
Local Open Scope N_scope.

(* ================================================================== *)
(** ** Python text *)

(** A Unicode code point. *)
Abbreviation cp := N.

(** A Python [str]. *)
Abbreviation str := (list cp).

(** A source literal, character by character (the literals of the script
    are all ASCII). *)
Definition lit (s : string) : str :=
  map N_of_ascii (list_ascii_of_string s).

Definition nl : cp := 10.
Definition space : cp := 32.
Definition comma : cp := 44.
Definition hyphen : cp := 45.
Definition capital_sigma : cp := 931.        (* U+03A3 *)
Definition small_final_sigma : cp := 962.    (* U+03C2 *)
Definition small_sigma : cp := 963.          (* U+03C3 *)

(** The tables of the Unicode character database that [str.title],
    [str.lower] and [str.isdigit] consult.  They belong to the Python
    runtime, not to the script, so the script is verified for every
    table. *)
Record UnicodeData := {
  ucd_lower : cp -> str;            (* full lower-case mapping *)
  ucd_title : cp -> str;            (* full title-case mapping *)
  ucd_cased : cp -> bool;           (* property Cased *)
  ucd_case_ignorable : cp -> bool;  (* property Case_Ignorable *)
  ucd_digit : cp -> bool            (* what str.isdigit accepts *)
}.

Definition is_ascii_upper (c : cp) : bool := (65 <=? c) && (c <=? 90).
Definition is_ascii_lower (c : cp) : bool := (97 <=? c) && (c <=? 122).
Definition is_ascii_letter (c : cp) : bool := is_ascii_upper c || is_ascii_lower c.
Definition is_ascii_digit (c : cp) : bool := (48 <=? c) && (c <=? 57).
Definition ascii_to_lower (c : cp) : cp := if is_ascii_upper c then c + 32 else c.
Definition ascii_to_upper (c : cp) : cp := if is_ascii_lower c then c - 32 else c.

(** The character database on U+0000..U+007F.  Above that range this
    table leaves every character alone; it is used to evaluate the script
    on ASCII inputs only. *)
Definition ucd_ascii : UnicodeData := {|
  ucd_lower c := [ascii_to_lower c];
  ucd_title c := [ascii_to_upper c];
  ucd_cased c := is_ascii_letter c;
  ucd_case_ignorable c :=
    (c =? 39) || (c =? 46) || (c =? 58) || (c =? 94) || (c =? 96);
  ucd_digit c := is_ascii_digit c
|}.

Definition is_ascii (s : str) : Prop := Forall (fun c => c < 128) s.

(** A table is exact on ASCII when it agrees there with the character
    database (every table of a Python runtime does). *)
Definition ascii_exact (U : UnicodeData) : Prop :=
  forall c, c < 128 ->
    ucd_lower U c = [ascii_to_lower c] /\
    ucd_title U c = [ascii_to_upper c] /\
    ucd_cased U c = is_ascii_letter c /\
    ucd_digit U c = is_ascii_digit c.

(** [a < b] on Python strings: lexicographic on code points. *)
Fixpoint str_ltb (a b : str) : bool :=
  match a, b with
  | _, [] => false
  | [], _ :: _ => true
  | x :: a', y :: b' =>
      if x <? y then true else if y <? x then false else str_ltb a' b'
  end.

Definition str_lt (a b : str) : Prop := str_ltb a b = true.
Definition str_le (a b : str) : Prop := str_ltb b a = false.

(** [s.replace(old, new)] for one-character [old] and [new], the only way
    the script calls it. *)
Definition replace_char (old new : cp) (s : str) : str :=
  map (fun c => if c =? old then new else c) s.

(** [s.partition(sep)] without the separator: the text before the first
    [sep] and, when there is one, the text after it. *)
Fixpoint cut_first (sep : cp) (s : str) : str * option str :=
  match s with
  | [] => ([], None)
  | c :: r =>
      if c =? sep then ([], Some r)
      else let (a, b) := cut_first sep r in (c :: a, b)
  end.

(** [s.split(sep, 1)] for a one-character separator: one part when
    [sep] does not occur, two otherwise. *)
Definition split_once (sep : cp) (s : str) : list str :=
  match cut_first sep s with
  | (a, None) => [a]
  | (a, Some b) => [a; b]
  end.

Section PythonStr.
Variable U : UnicodeData.

(** [s.isdigit()]: at least one character and all of them digits. *)
Definition isdigit (s : str) : bool :=
  match s with
  | [] => false
  | _ => forallb (ucd_digit U) s
  end.

(** First character of [s] that is not case-ignorable. *)
Definition skip_ignorable (s : str) : option cp :=
  find (fun c => negb (ucd_case_ignorable U c)) s.

(** CPython's [handle_capital_sigma]: U+03A3 lower-cases to the final
    sigma when a cased character precedes it and none follows it,
    case-ignorable characters aside.  [before] is the text to the left,
    nearest character first. *)
Definition handle_capital_sigma (before after : str) : cp :=
  let final_sigma :=
    match skip_ignorable before with
    | Some c =>
        ucd_cased U c &&
        match skip_ignorable after with
        | Some c' => negb (ucd_cased U c')
        | None => true
        end
    | None => false
    end in
  if final_sigma then small_final_sigma else small_sigma.

(** CPython's [lower_ucs4]: the lower-case form of [c] in its context. *)
Definition lower_ucs4 (before : str) (c : cp) (after : str) : str :=
  if c =? capital_sigma then [handle_capital_sigma before after]
  else ucd_lower U c.

(** CPython's [do_lower], the loop behind [s.lower()]. *)
Fixpoint do_lower (before : str) (s : str) : str :=
  match s with
  | [] => []
  | c :: rest => lower_ucs4 before c rest ++ do_lower (c :: before) rest
  end.

Definition py_lower (s : str) : str := do_lower [] s.

(** CPython's [do_title], the loop behind [s.title()]: a character after
    a cased character is lower-cased, any other is title-cased. *)
Fixpoint do_title (before : str) (previous_is_cased : bool) (s : str) : str :=
  match s with
  | [] => []
  | c :: rest =>
      (if previous_is_cased then lower_ucs4 before c rest
       else ucd_title U c)
      ++ do_title (c :: before) (ucd_cased U c) rest
  end.

Definition py_title (s : str) : str := do_title [] false s.
End PythonStr.

(** [str(n)] and [f"{n}"] for a non-negative integer. *)
Fixpoint uint_str (d : Decimal.uint) : str :=
  match d with
  | Decimal.Nil => []
  | Decimal.D0 r => 48 :: uint_str r
  | Decimal.D1 r => 49 :: uint_str r
  | Decimal.D2 r => 50 :: uint_str r
  | Decimal.D3 r => 51 :: uint_str r
  | Decimal.D4 r => 52 :: uint_str r
  | Decimal.D5 r => 53 :: uint_str r
  | Decimal.D6 r => 54 :: uint_str r
  | Decimal.D7 r => 55 :: uint_str r
  | Decimal.D8 r => 56 :: uint_str r
  | Decimal.D9 r => 57 :: uint_str r
  end.

Definition decimal (n : N) : str := uint_str (N.to_uint n).

(** Reading a decimal numeral back. *)
Fixpoint str_uint (s : str) : option Decimal.uint :=
  match s with
  | [] => Some Decimal.Nil
  | c :: r =>
      match str_uint r with
      | None => None
      | Some d =>
          if c =? 48 then Some (Decimal.D0 d) else
          if c =? 49 then Some (Decimal.D1 d) else
          if c =? 50 then Some (Decimal.D2 d) else
          if c =? 51 then Some (Decimal.D3 d) else
          if c =? 52 then Some (Decimal.D4 d) else
          if c =? 53 then Some (Decimal.D5 d) else
          if c =? 54 then Some (Decimal.D6 d) else
          if c =? 55 then Some (Decimal.D7 d) else
          if c =? 56 then Some (Decimal.D8 d) else
          if c =? 57 then Some (Decimal.D9 d) else None
      end
  end.

Definition parse_decimal (s : str) : option N :=
  match s with
  | [] => None
  | _ => option_map N.of_uint (str_uint s)
  end.

(** Digits, least significant first, with a comma after every third one
    that is not the last. *)
Fixpoint group_thousands (k : nat) (digits_rev : str) : str :=
  match digits_rev with
  | [] => []
  | d :: r =>
      match r with
      | [] => [d]
      | _ :: _ =>
          match k with
          | 2%nat => d :: comma :: group_thousands 0 r
          | _ => d :: group_thousands (S k) r
          end
      end
  end.

(** [f"{n:,}"] for a non-negative integer. *)
Definition format_commas (n : N) : str :=
  rev (group_thousands 0 (rev (decimal n))).

Definition strip_commas (s : str) : str :=
  filter (fun c => negb (c =? comma)) s.

(** A Unicode scalar value: a code point of the Unicode range that is
    not a surrogate.  A Python [str] may hold lone surrogates (a
    directory name that is not valid UTF-8 is listed with them); no
    strict encoder accepts them. *)
Definition scalar (c : cp) : bool :=
  (c <? 55296) || ((57343 <? c) && (c <? 1114112)).

(** The UTF-8 bytes of a scalar value. *)
Definition utf8_bytes (c : cp) : list N :=
  if c <? 128 then [c]
  else if c <? 2048 then
    [N.lor 192 (N.shiftr c 6); N.lor 128 (N.land c 63)]
  else if c <? 65536 then
    [N.lor 224 (N.shiftr c 12);
     N.lor 128 (N.land (N.shiftr c 6) 63);
     N.lor 128 (N.land c 63)]
  else
    [N.lor 240 (N.shiftr c 18);
     N.lor 128 (N.land (N.shiftr c 12) 63);
     N.lor 128 (N.land (N.shiftr c 6) 63);
     N.lor 128 (N.land c 63)].

(** Strict UTF-8, the encoding used to write text files: [None] stands
    for UnicodeEncodeError. *)
Definition utf8_encode_cp (c : cp) : option (list N) :=
  if scalar c then Some (utf8_bytes c) else None.

Fixpoint utf8_encode (s : str) : option (list N) :=
  match s with
  | [] => Some []
  | c :: r =>
      match utf8_encode_cp c, utf8_encode r with
      | Some bs, Some rest => Some (bs ++ rest)
      | _, _ => None
      end
  end.

(** A text that the strict encoder accepts. *)
Definition encodable (s : str) : bool := forallb scalar s.

(** A continuation byte, 10xxxxxx. *)
Definition is_continuation (b : N) : bool := (128 <=? b) && (b <=? 191).

(** Strict UTF-8 decoding, the decoding used to read text files: [None]
    stands for UnicodeDecodeError.  Stray and missing continuation
    bytes, over-long forms, surrogates and values beyond U+10FFFF are
    refused. *)
Fixpoint utf8_decode (bs : list N) : option str :=
  match bs with
  | [] => Some []
  | b0 :: r0 =>
      if b0 <? 128 then option_map (cons b0) (utf8_decode r0)
      else if b0 <? 224 then
        match r0 with
        | b1 :: r1 =>
            let c := (b0 - 192) * 64 + (b1 - 128) in
            if (192 <=? b0) && is_continuation b1 && (128 <=? c)
            then option_map (cons c) (utf8_decode r1)
            else None
        | _ => None
        end
      else if b0 <? 240 then
        match r0 with
        | b1 :: b2 :: r2 =>
            let c := (b0 - 224) * 4096 + (b1 - 128) * 64 + (b2 - 128) in
            if is_continuation b1 && is_continuation b2
               && (2048 <=? c) && scalar c
            then option_map (cons c) (utf8_decode r2)
            else None
        | _ => None
        end
      else
        match r0 with
        | b1 :: b2 :: b3 :: r3 =>
            let c := (b0 - 240) * 262144 + (b1 - 128) * 4096
                     + (b2 - 128) * 64 + (b3 - 128) in
            if (b0 <? 248) && is_continuation b1 && is_continuation b2
               && is_continuation b3 && (65536 <=? c) && scalar c
            then option_map (cons c) (utf8_decode r3)
            else None
        | _ => None
        end
  end.

Definition cr : cp := 13.

(** Universal newlines, the translation of text-mode reading: CR LF and
    a CR alone both become LF. *)
Fixpoint universal_newlines (s : str) : str :=
  match s with
  | [] => []
  | c :: r =>
      if c =? cr then
        nl :: match r with
              | d :: r' =>
                  if d =? nl then universal_newlines r'
                  else universal_newlines r
              | [] => []
              end
      else c :: universal_newlines r
  end.

(** What a text-mode read returns for a file with the stored bytes
    [bs]. *)
Definition read_stored (bs : list N) : option str :=
  option_map universal_newlines (utf8_decode bs).

(** [sorted(l)] under a key: stable insertion with [<] as only test. *)
Section SortedBuiltin.
Context {A : Type}.
Variable key : A -> str.

Fixpoint insert_sorted (x : A) (l : list A) : list A :=
  match l with
  | [] => [x]
  | y :: l' =>
      if str_ltb (key y) (key x) then y :: insert_sorted x l'
      else x :: l
  end.

Definition sorted (l : list A) : list A :=
  fold_right insert_sorted [] l.
End SortedBuiltin.

(* ================================================================== *)
(** ** The world the script runs in *)

(** The exceptions of the runtime that the script can meet.  It catches
    none. *)
Inductive exn :=
| OSError               (* the filesystem refuses: missing, a directory, no permission *)
| UnicodeDecodeError    (* stored bytes that are not text *)
| UnicodeEncodeError.   (* text that cannot be stored *)

(** What a project directory holds under the name [README.md]. *)
Inductive readme_node :=
| NoReadme                       (* nothing of that name *)
| ReadmeText (content : str)     (* a file; [content] is what read_text gives *)
| ReadmeUnreadable (e : exn).    (* something that exists; reading it raises [e] *)

(** The node of a README.md file with the stored bytes [bs]: reading it
    in text mode decodes the bytes and translates the line ends. *)
Definition readme_file (bs : list N) : readme_node :=
  match read_stored bs with
  | Some s => ReadmeText s
  | None => ReadmeUnreadable UnicodeDecodeError
  end.

(** An immediate child of [docs/project]. *)
Inductive node :=
| File
| Dir (readme : readme_node).

(** A [Path] below [docs/project], with what the filesystem holds there. *)
Record path := { name : str; on_disk : node }.

(** What the filesystem holds at [docs/PORTFOLIO.md]. *)
Inductive out_node :=
| OutAbsent
| OutFile (text : str)
| OutBlocked.                    (* cannot be opened for writing *)

Record world := {
  project_dir : option (list path);  (* listing of docs/project, in the
                                        order of the operating system;
                                        None when it cannot be listed *)
  output_file : out_node;
  utc_date : str;                    (* utcnow().strftime('%Y-%m-%d') *)
  stdout : list str                  (* the lines printed so far *)
}.

Definition with_output (o : out_node) (w : world) : world :=
  {| project_dir := project_dir w; output_file := o;
     utc_date := utc_date w; stdout := stdout w |}.

Definition with_stdout (l : list str) (w : world) : world :=
  {| project_dir := project_dir w; output_file := output_file w;
     utc_date := utc_date w; stdout := l |}.

Definition with_date (d : str) (w : world) : world :=
  {| project_dir := project_dir w; output_file := output_file w;
     utc_date := d; stdout := stdout w |}.

Definition with_listing (l : option (list path)) (w : world) : world :=
  {| project_dir := l; output_file := output_file w;
     utc_date := utc_date w; stdout := stdout w |}.

Inductive result (A : Type) :=
| Ok (a : A)
| Raise (e : exn).
Arguments Ok {A} a.
Arguments Raise {A} e.

(** Computations that read and change the world and may raise. *)
Definition M (A : Type) : Type := world -> result A * world.

Definition ret {A} (a : A) : M A := fun w => (Ok a, w).

Definition raise {A} (e : exn) : M A := fun w => (Raise e, w).

Definition bind {A B} (c : M A) (k : A -> M B) : M B :=
  fun w =>
    match c w with
    | (Ok a, w') => k a w'
    | (Raise e, w') => (Raise e, w')
    end.

Notation "x <- c ;; k" := (bind c (fun x => k))
  (at level 61, c at next level, right associativity).
Notation "c ;;; k" := (bind c (fun _ => k))
  (at level 61, right associativity).

(** [base.iterdir()], consumed whole. *)
Definition iterdir : M (list path) :=
  fun w =>
    match project_dir w with
    | Some l => (Ok l, w)
    | None => (Raise OSError, w)
    end.

(** [d.is_dir()]. *)
Definition is_dir (d : path) : bool :=
  match on_disk d with
  | Dir _ => true
  | File => false
  end.

(** [project_dir / "README.md"]. *)
Definition readme_of (d : path) : readme_node :=
  match on_disk d with
  | Dir r => r
  | File => NoReadme
  end.

(** [readme.exists()]. *)
Definition exists_ (r : readme_node) : bool :=
  match r with
  | NoReadme => false
  | _ => true
  end.

(** [readme.read_text()]. *)
Definition read_text (r : readme_node) : M str :=
  match r with
  | ReadmeText s => ret s
  | ReadmeUnreadable e => raise e
  | NoReadme => raise OSError
  end.

(** [datetime.utcnow().strftime('%Y-%m-%d')]. *)
Definition utcnow_ymd : M str := fun w => (Ok (utc_date w), w).

(** [print(line)]. *)
Definition print (line : str) : M unit :=
  fun w => (Ok tt, with_stdout (stdout w ++ [line]) w).

(** [os.makedirs("docs", exist_ok=True)].  It is reached only after
    [docs/project] has been listed, so [docs] exists and nothing
    changes. *)
Definition makedirs_docs : M unit := ret tt.

(** [open(OUTPUT_FILE, "w")]: the file is created or emptied. *)
Definition open_for_writing : M unit :=
  fun w =>
    match output_file w with
    | OutBlocked => (Raise OSError, w)
    | _ => (Ok tt, with_output (OutFile []) w)
    end.

(** [f.write(text)]: the whole text is encoded first, then stored;
    line ends as they are. *)
Definition file_write (text : str) : M unit :=
  fun w =>
    match utf8_encode text with
    | Some _ => (Ok tt, with_output (OutFile text) w)
    | None => (Raise UnicodeEncodeError, w)
    end.

(** [with open(OUTPUT_FILE, "w") as f: f.write(text)]. *)
Definition write_output (text : str) : M unit :=
  open_for_writing ;;; file_write text.

(* ================================================================== *)
(** ** The script *)

Definition PROJECT_DIR : str := lit "docs/project".
Definition OUTPUT_FILE : str := lit "docs/PORTFOLIO.md".

(** A project: directory name and README content. *)
Abbreviation project := (str * str)%type.

(** [get_project_dirs]: the directories under the root, sorted.  Paths
    with the same parent compare as their names do (POSIX paths: by
    code point, case kept). *)
Definition get_project_dirs : M (list path) :=
  l <- iterdir ;;
  ret (sorted name (filter is_dir l)).

(** [read_readme]. *)
Definition read_readme (project_dir : path) : M (option str) :=
  let readme := readme_of project_dir in
  if exists_ readme then
    s <- read_text readme ;; ret (Some s)
  else ret None.

(** Truth value of what [read_readme] returns: [None] and the empty
    string are false. *)
Definition truthy (content : option str) : bool :=
  match content with
  | Some (_ :: _) => true
  | _ => false
  end.

(** The first loop of [main] (lines 37-41), with [projects] as
    accumulator. *)
Fixpoint collect_projects (dirs : list path) (projects : list project)
  : M (list project) :=
  match dirs with
  | [] => ret projects
  | d :: rest =>
      content <- read_readme d ;;
      collect_projects rest
        (match content with
         | Some s => if truthy content then projects ++ [(name d, s)]
                     else projects
         | None => projects
         end)
  end.

Section Script.
Variable U : UnicodeData.

(** Lines 27-31: the title of a table-of-contents entry. *)
Definition toc_title (name : str) : str :=
  let title := py_title U (replace_char hyphen space name) in
  let parts := split_once space title in
  if isdigit U (nth 0 parts []) && Nat.ltb 1 (length parts)
  then nth 1 parts []
  else title.

(** Line 32: the anchor of a table-of-contents entry. *)
Definition toc_anchor (name : str) : str :=
  replace_char space hyphen (py_lower U name).

(** Line 33: the f-string of one entry. *)
Definition toc_line (i : N) (name : str) : str :=
  decimal i ++ lit ". [" ++ toc_title name ++ lit "](#"
    ++ toc_anchor name ++ lit ")" ++ [nl].

Definition toc_heading : str := lit "## Table of Contents" ++ [nl; nl].

(** [generate_toc]: the loop over [enumerate(projects, 1)], with the
    counter and the text built so far as state. *)
Definition generate_toc (projects : list project) : str :=
  snd (fold_left
         (fun (st : N * str) (p : project) =>
            let (i, toc) := st in
            (i + 1, toc ++ toc_line i (fst p)))
         projects (1, toc_heading)).

(** Lines 48-61: the front matter around the table of contents. *)
Definition front_matter (date toc : str) : str :=
  lit "# DevSecOps & Cloud Security Portfolio" ++ [nl; nl]
  ++ lit "> **BAMG Studio** | Generated " ++ date ++ [nl]
  ++ lit ">" ++ [nl]
  ++ lit "> Comprehensive documentation for 12 enterprise-grade security," ++ [nl]
  ++ lit "> DevOps, and ML engineering projects demonstrating expertise in" ++ [nl]
  ++ lit "> AWS cloud architecture, security automation, and MLOps." ++ [nl; nl]
  ++ lit "---" ++ [nl; nl]
  ++ toc ++ [nl]
  ++ lit "---" ++ [nl; nl].

(** Line 64: what one project adds to the document. *)
Definition project_section (p : project) : str :=
  [nl; nl] ++ lit "---" ++ [nl; nl]
  ++ lit "<!-- PROJECT: " ++ fst p ++ lit " -->" ++ [nl; nl]
  ++ snd p ++ [nl].

(** Lines 48-64: the assembled document. *)
Definition build_portfolio (date : str) (projects : list project) : str :=
  fold_left (fun portfolio p => portfolio ++ project_section p)
    projects (front_matter date (generate_toc projects)).

(** [main]. *)
Definition main : M unit :=
  dirs <- get_project_dirs ;;
  projects <- collect_projects dirs [] ;;
  match projects with
  | [] => print (lit "No project README files found!")
  | _ :: _ =>
      date <- utcnow_ymd ;;
      let portfolio := build_portfolio date projects in
      makedirs_docs ;;;
      write_output portfolio ;;;
      print (lit "Portfolio generated: " ++ OUTPUT_FILE) ;;;
      print (lit "Total projects: "
               ++ decimal (N.of_nat (length projects))) ;;;
      print (lit "Total size: "
               ++ format_commas (N.of_nat (length portfolio))
               ++ lit " characters")
  end.
End Script.

(* ================================================================== *)
(** ** Vocabulary of the specification *)

(** The README of [d], if there is one, can be read as text. *)
Definition readable (d : path) : Prop :=
  forall e, readme_of d <> ReadmeUnreadable e.

(** [d] is a directory that contains a [README.md]. *)
Definition contains_readme (d : path) : bool :=
  is_dir d && exists_ (readme_of d).

(** [d] is a directory whose [README.md] has content. *)
Definition has_content (d : path) : bool :=
  match on_disk d with
  | Dir (ReadmeText (_ :: _)) => true
  | _ => false
  end.

(** Nothing to include at [d]: not a directory, no README, or an empty
    one. *)
Definition nothing_to_include (d : path) : Prop :=
  readme_of d = NoReadme \/ readme_of d = ReadmeText [].

(** The project a path contributes, if any. *)
Definition project_of (d : path) : list project :=
  match readme_of d with
  | ReadmeText (c :: s) => [(name d, c :: s)]
  | _ => []
  end.

(** The projects of a listing, in the order of the document. *)
Definition included (l : list path) : list project :=
  flat_map project_of (sorted name (filter is_dir l)).

(** The entry lines for [names], numbered from [i]. *)
Fixpoint toc_lines (U : UnicodeData) (i : N) (names : list str) : list str :=
  match names with
  | [] => []
  | n :: rest => toc_line U i n :: toc_lines U (i + 1) rest
  end.

(** The table of contents that lists exactly [names], in that order. *)
Definition toc_listing (U : UnicodeData) (names : list str) : str :=
  toc_heading ++ concat (toc_lines U 1 names).

(** The run of [main] in [w] writes a document whose table of contents
    lists exactly [names]. *)
Definition run_lists (U : UnicodeData) (w : world) (names : list str) : Prop :=
  exists body,
    output_file (snd (main U w))
    = OutFile (front_matter (utc_date w) (toc_listing U names) ++ body).

(** The world after a successful, non-empty run of [main]. *)
Definition after_write (U : UnicodeData) (w : world) (ps : list project) : world :=
  let doc := build_portfolio U (utc_date w) ps in
  with_stdout
    (stdout w ++
       [lit "Portfolio generated: docs/PORTFOLIO.md";
        lit "Total projects: " ++ decimal (N.of_nat (length ps));
        lit "Total size: " ++ format_commas (N.of_nat (length doc))
          ++ lit " characters"])
    (with_output (OutFile doc) w).

(** What the last part of [main] (lines 47-73) does with the projects
    [ps]: it stops when the output file cannot be opened; it leaves the
    file empty and stops when the document cannot be encoded; otherwise
    it stores the document and prints the summary. *)
Definition write_branch (U : UnicodeData) (w : world) (ps : list project)
  : result unit * world :=
  match output_file w with
  | OutBlocked => (Raise OSError, w)
  | _ =>
      if encodable (build_portfolio U (utc_date w) ps)
      then (Ok tt, after_write U w ps)
      else (Raise UnicodeEncodeError, with_output (OutFile []) w)
  end.

(** What [main] does once the first loop is over, [g] being what the
    loop gave. *)
Definition finish (U : UnicodeData) (w : world) (g : result (list project))
  : result unit * world :=
  match g with
  | Raise e => (Raise e, w)
  | Ok [] => (Ok tt, with_stdout
                       (stdout w ++ [lit "No project README files found!"]) w)
  | Ok ps => write_branch U w ps
  end.

(** Title-casing as the specification words it: the first letter of each
    whitespace-separated word is capitalised, nothing else changes. *)
Definition is_whitespace (c : cp) : bool :=
  (c =? space) || ((9 <=? c) && (c <=? 13)).

Fixpoint capitalize_words (U : UnicodeData) (at_word_start : bool) (s : str) : str :=
  match s with
  | [] => []
  | c :: r =>
      if is_whitespace c then c :: capitalize_words U true r
      else (if at_word_start then ucd_title U c else [c])
             ++ capitalize_words U false r
  end.

(** The whitespace-separated words of a text. *)
Fixpoint words_from (cur : str) (s : str) : list str :=
  match s with
  | [] => match cur with [] => [] | _ => [rev cur] end
  | c :: r =>
      if is_whitespace c
      then match cur with
           | [] => words_from [] r
           | _ => rev cur :: words_from [] r
           end
      else words_from (c :: cur) r
  end.

Definition words (s : str) : list str := words_from [] s.

(** The title as the specification words it: hyphens to spaces, first
    letters capitalised, a leading numeric word dropped when another word
    follows. *)
Definition spec_toc_title (U : UnicodeData) (name : str) : str :=
  let title := capitalize_words U true (replace_char hyphen space name) in
  match words title, cut_first space title with
  | first :: _ :: _, (_, Some rest) =>
      if isdigit U first then rest else title
  | _, _ => title
  end.

(** What [str.title] puts at position [i] of [s]: the title-case form of
    the character when it is the first or follows an uncased character,
    its lower-case form when it follows a cased one. *)
Definition title_at (U : UnicodeData) (s : str) (i : nat) : str :=
  let c := nth i s 0 in
  match i with
  | O => ucd_title U c
  | S j =>
      if ucd_cased U (nth j s 0)
      then lower_ucs4 U (rev (firstn i s)) c (skipn (S i) s)
      else ucd_title U c
  end.

(** The first loop of [main] without the world: what it collects, or
    the error it stops with. *)
Fixpoint gather (dirs : list path) (acc : list project) : result (list project) :=
  match dirs with
  | [] => Ok acc
  | d :: rest =>
      match readme_of d with
      | NoReadme => gather rest acc
      | ReadmeText [] => gather rest acc
      | ReadmeText (c :: s) => gather rest (acc ++ [(name d, c :: s)])
      | ReadmeUnreadable e => Raise e
      end
  end.

(** The case tables send scalar values to scalar values (those of a
    Python runtime do). *)
Definition scalar_tables (U : UnicodeData) : Prop :=
  forall c, scalar c = true ->
    encodable (ucd_lower U c) = true /\ encodable (ucd_title U c) = true.

(** The name of [d] and the text of its README, if it has one, are
    valid Unicode text: no lone surrogate. *)
Definition valid_unicode (d : path) : bool :=
  encodable (name d) &&
  match readme_of d with
  | ReadmeText s => encodable s
  | _ => true
  end.

(** The outcome of a run, as seen from outside: how it ended, what is on
    the console, what the output file holds. *)
Definition outcome (r : result unit * world) : result unit * list str * out_node :=
  (fst r, stdout (snd r), output_file (snd r)).

(** A directory that adds nothing to the projects and does not stop the
    run: it is left out of the document. *)
Definition contributes (d : path) : bool :=
  match readme_of d with
  | NoReadme => false
  | ReadmeText [] => false
  | _ => true
  end.

(* ================================================================== *)
(** ** Sample worlds *)

(** A listing in which an empty README sits beside a real one. *)
Definition alpha_beta : list path :=
  [ {| name := lit "beta"; on_disk := Dir (ReadmeText (lit "x")) |};
    {| name := lit "alpha"; on_disk := Dir (ReadmeText []) |} ].

Definition alpha_beta_world : world :=
  {| project_dir := Some alpha_beta; output_file := OutAbsent;
     utc_date := lit "2024-05-01"; stdout := [] |}.

(** A root with one empty project directory, one plain file and an
    output file from an earlier run. *)
Definition no_readme_listing : list path :=
  [ {| name := lit "03-empty"; on_disk := Dir NoReadme |};
    {| name := lit "notes.txt"; on_disk := File |} ].

Definition no_readme_world : world :=
  {| project_dir := Some no_readme_listing;
     output_file := OutFile (lit "kept");
     utc_date := lit "2024-05-01"; stdout := [] |}.

(** A project whose README holds one character outside ASCII, U+00E9. *)
Definition accent_listing : list path :=
  [ {| name := lit "cafe"; on_disk := Dir (ReadmeText [233]) |} ].

Definition accent_world : world :=
  {| project_dir := Some accent_listing; output_file := OutAbsent;
     utc_date := lit "2024-05-01"; stdout := [] |}.

(** The world of a second run, a day after a first run in
    [alpha_beta_world]. *)
Definition alpha_beta_next_day : world :=
  with_date (lit "2024-05-02") (snd (main ucd_ascii alpha_beta_world)).

(** The scenario of the specification: two projects and a directory
    without README, listed out of order. *)
Definition scenario_listing : list path :=
  [ {| name := lit "02-scanner";
       on_disk := Dir (ReadmeText (lit "# Scanner" ++ [nl] ++ lit "Content")) |};
    {| name := lit "03-empty"; on_disk := Dir NoReadme |};
    {| name := lit "01-proxy";
       on_disk := Dir (ReadmeText (lit "# Proxy" ++ [nl] ++ lit "Content")) |} ].

Definition scenario_world : world :=
  {| project_dir := Some scenario_listing; output_file := OutAbsent;
     utc_date := lit "2024-05-01"; stdout := [] |}.

(** A listing with a plain file, two good projects and a README.md that
    is itself a directory. *)
Definition mixed_listing : list path :=
  [ {| name := lit "zeta"; on_disk := Dir (ReadmeText (lit "z")) |};
    {| name := lit "notes.txt"; on_disk := File |};
    {| name := lit "broken"; on_disk := Dir (ReadmeUnreadable OSError) |};
    {| name := lit "alpha"; on_disk := Dir (ReadmeText (lit "a")) |} ].

Definition mixed_world : world :=
  {| project_dir := Some mixed_listing; output_file := OutFile (lit "old");
     utc_date := lit "2024-05-01"; stdout := [lit "earlier"] |}.

(** The anchor of one ASCII character. *)
Definition anchor_char (c : cp) : cp :=
  if c =? space then hyphen else ascii_to_lower c.

(** A character that an anchor can hold: neither a space nor an ASCII
    capital. *)
Definition anchor_clean (c : cp) : Prop :=
  c <> space /\ is_ascii_upper c = false.

(** A project whose README.md is stored with CR LF line ends: the bytes
    of 'a', CR, LF, 'b'. *)
Definition crlf_bytes : list N := [97; 13; 10; 98].

Definition crlf_listing : list path :=
  [ {| name := lit "dos"; on_disk := Dir (readme_file crlf_bytes) |} ].

Definition crlf_world : world :=
  {| project_dir := Some crlf_listing; output_file := OutAbsent;
     utc_date := lit "2024-05-01"; stdout := [] |}.

(** A directory whose name is not valid UTF-8 on disk - the single byte
    0xFF - and is listed with the lone surrogate U+DCFF. *)
Definition surrogate_listing : list path :=
  [ {| name := [56575]; on_disk := Dir (ReadmeText (lit "x")) |} ].

Definition surrogate_world : world :=
  {| project_dir := Some surrogate_listing; output_file := OutFile (lit "old");
     utc_date := lit "2024-05-01"; stdout := [] |}.

(* ================================================================== *)
(** * Properties *)

(** Facts about a concrete listing: every README in it can be read;
    its names are pairwise distinct. *)
Ltac all_readable := repeat constructor; intro; discriminate.
Ltac names_distinct := repeat constructor; simpl; intuition discriminate.

(** ** The order on strings *)

Lemma str_ltb_irrefl (a : str) : str_ltb a a = false.
Proof.
  induction a as [|x a IH]; simpl; [reflexivity|].
  now rewrite N.ltb_irrefl.
Qed.

Lemma str_ltb_trans (a b c : str) :
  str_ltb a b = true -> str_ltb b c = true -> str_ltb a c = true.
Proof.
  revert b c; induction a as [|x a IH]; intros [|y b] [|z c]; simpl;
    try congruence.
  destruct (N.ltb_spec x y), (N.ltb_spec y x), (N.ltb_spec y z),
    (N.ltb_spec z y), (N.ltb_spec x z), (N.ltb_spec z x);
    try congruence; try lia.
  apply IH.
Qed.

Lemma str_ltb_antisym (a b : str) :
  str_ltb a b = false -> str_ltb b a = false -> a = b.
Proof.
  revert b; induction a as [|x a IH]; intros [|y b]; simpl;
    try congruence.
  destruct (N.ltb_spec x y), (N.ltb_spec y x); try congruence; try lia.
  intros Hab Hba. replace y with x by lia. f_equal. now apply IH.
Qed.

Lemma str_ltb_asym (a b : str) : str_ltb a b = true -> str_ltb b a = false.
Proof.
  revert b; induction a as [|x a IH]; intros [|y b]; simpl;
    try congruence.
  destruct (N.ltb_spec x y), (N.ltb_spec y x); try congruence; try lia.
  apply IH.
Qed.

Lemma str_le_trans (a b c : str) : str_le a b -> str_le b c -> str_le a c.
Proof.
  unfold str_le. intros Hab Hbc.
  destruct (str_ltb c a) eqn:Hca; [|reflexivity].
  destruct (str_ltb c b) eqn:Hcb; [congruence|].
  destruct (str_ltb b c) eqn:Hbc'.
  - (* b < c < a *) pose proof (str_ltb_trans _ _ _ Hbc' Hca). congruence.
  - (* b = c *) pose proof (str_ltb_antisym _ _ Hbc' Hcb). subst. congruence.
Qed.

(** ** [sorted] *)

Section SortedFacts.
Context {A : Type}.
Variable key : A -> str.

Let le_key (x y : A) : Prop := str_le (key x) (key y).

Lemma insert_sorted_perm (x : A) (l : list A) :
  Permutation (insert_sorted key x l) (x :: l).
Proof.
  induction l as [|y l IH]; simpl; [reflexivity|].
  destruct (str_ltb (key y) (key x)); [|reflexivity].
  rewrite IH. apply perm_swap.
Qed.

Lemma sorted_perm (l : list A) : Permutation (sorted key l) l.
Proof.
  induction l as [|x l IH]; simpl; [reflexivity|].
  rewrite insert_sorted_perm. now constructor.
Qed.

Lemma insert_sorted_ordered (x : A) (l : list A) :
  StronglySorted le_key l -> StronglySorted le_key (insert_sorted key x l).
Proof.
  induction 1 as [|y l Hl IH Hy]; simpl.
  - repeat constructor.
  - destruct (str_ltb (key y) (key x)) eqn:E.
    + constructor; [exact IH|].
      eapply Permutation_Forall;
        [symmetry; apply insert_sorted_perm|].
      constructor; [|exact Hy].
      now apply str_ltb_asym.
    + constructor; [now constructor|].
      constructor; [exact E|].
      eapply Forall_impl; [|exact Hy].
      intros z Hz. eapply str_le_trans; [exact E|exact Hz].
Qed.

Lemma sorted_ordered (l : list A) : StronglySorted le_key (sorted key l).
Proof.
  induction l as [|x l IH]; simpl; [constructor|].
  now apply insert_sorted_ordered.
Qed.

(** A listing without two equal keys has one sorted arrangement. *)
Lemma ordered_perm_unique (a b : list A) :
  StronglySorted le_key a -> StronglySorted le_key b ->
  Permutation a b -> NoDup (map key a) -> a = b.
Proof.
  revert b; induction a as [|x a IH]; intros b Sa Sb P ND.
  - now apply Permutation_nil in P.
  - destruct b as [|y b].
    { symmetry in P. now apply Permutation_nil in P. }
    inversion Sa as [|? ? Sa' Fa]; subst.
    inversion Sb as [|? ? Sb' Fb]; subst.
    inversion ND as [|? ? Nx ND']; subst.
    assert (Hxy : x = y).
    { assert (Hy : In y (x :: a))
        by (eapply Permutation_in; [symmetry; exact P|now left]).
      destruct Hy as [Hy|Hy]; [exact Hy|].
      assert (Hx : In x (y :: b))
        by (eapply Permutation_in; [exact P|now left]).
      destruct Hx as [Hx|Hx]; [now symmetry|].
      exfalso. apply Nx.
      rewrite Forall_forall in Fa, Fb.
      pose proof (Fa _ Hy) as L1. pose proof (Fb _ Hx) as L2.
      unfold le_key, str_le in L1, L2.
      rewrite (str_ltb_antisym _ _ L2 L1).
      now apply in_map. }
    subst y. f_equal.
    apply IH; auto. eapply Permutation_cons_inv; exact P.
Qed.

(** [sorted] does not depend on the order of its argument when the
    keys are distinct. *)
Lemma sorted_perm_invariant (l l' : list A) :
  Permutation l l' -> NoDup (map key l) -> sorted key l = sorted key l'.
Proof.
  intros P ND. apply ordered_perm_unique.
  - apply sorted_ordered.
  - apply sorted_ordered.
  - rewrite !sorted_perm. exact P.
  - eapply Permutation_NoDup; [|exact ND].
    apply Permutation_map. symmetry. apply sorted_perm.
Qed.
End SortedFacts.

(** ** Running the script *)

Lemma read_readme_readable (d : path) (w : world) :
  readable d ->
  read_readme d w
  = (Ok (match readme_of d with ReadmeText s => Some s | _ => None end), w).
Proof.
  unfold readable, read_readme. intros H.
  destruct (readme_of d) as [|s|e]; simpl; try reflexivity.
  now destruct (H e).
Qed.

Lemma utf8_encode_encodable (s : str) :
  match utf8_encode s with
  | Some _ => encodable s = true
  | None => encodable s = false
  end.
Proof.
  induction s as [|c s IH]; [reflexivity|].
  cbn [utf8_encode encodable forallb]. unfold utf8_encode_cp.
  destruct (scalar c); [|reflexivity].
  destruct (utf8_encode s); exact IH.
Qed.

(** Opening truncates; writing stores the text or fails on it. *)
Lemma write_output_run (text : str) (w : world) :
  write_output text w =
  match output_file w with
  | OutBlocked => (Raise OSError, w)
  | _ =>
      if encodable text then (Ok tt, with_output (OutFile text) w)
      else (Raise UnicodeEncodeError, with_output (OutFile []) w)
  end.
Proof.
  unfold write_output, open_for_writing, file_write, bind.
  pose proof (utf8_encode_encodable text) as H.
  destruct (output_file w); try reflexivity;
    destruct (utf8_encode text); rewrite H; reflexivity.
Qed.

Lemma main_write_branch (U : UnicodeData) (w : world) (p : project) (ps : list project) :
  (date <- utcnow_ymd ;;
   let portfolio := build_portfolio U date (p :: ps) in
   makedirs_docs ;;;
   write_output portfolio ;;;
   print (lit "Portfolio generated: " ++ OUTPUT_FILE) ;;;
   print (lit "Total projects: "
            ++ decimal (N.of_nat (length (p :: ps)))) ;;;
   print (lit "Total size: "
            ++ format_commas (N.of_nat (length portfolio))
            ++ lit " characters")) w
  = write_branch U w (p :: ps).
Proof.
  unfold bind at 1, utcnow_ymd. cbv zeta.
  unfold bind at 1, makedirs_docs, ret. unfold bind at 1.
  rewrite write_output_run. unfold write_branch.
  destruct (output_file w) eqn:Ho; try reflexivity;
    destruct (encodable (build_portfolio U (utc_date w) (p :: ps)));
    try reflexivity;
    unfold bind, print, after_write, with_stdout, with_output; simpl;
    rewrite <- !app_assoc; reflexivity.
Qed.

Lemma collect_projects_readable (dirs : list path) (acc : list project) (w : world) :
  Forall readable dirs ->
  collect_projects dirs acc w = (Ok (acc ++ flat_map project_of dirs), w).
Proof.
  intros F; revert acc; induction F as [|d dirs Hd F IH]; intros acc.
  - simpl. unfold ret. now rewrite app_nil_r.
  - cbn [collect_projects flat_map]. unfold bind at 1.
    rewrite (read_readme_readable d w Hd).
    assert (P : project_of d
                = match readme_of d with
                  | ReadmeText (c :: s) => [(name d, c :: s)]
                  | _ => []
                  end) by reflexivity.
    rewrite P.
    destruct (readme_of d) as [|[|c s]|]; simpl; rewrite IH;
      try reflexivity.
    now rewrite <- app_assoc.
Qed.

Lemma sorted_dirs_readable (l : list path) :
  Forall readable l -> Forall readable (sorted name (filter is_dir l)).
Proof.
  intros F. eapply Permutation_Forall; [symmetry; apply sorted_perm|].
  rewrite Forall_forall in *. intros d Hd. apply F.
  now apply filter_In in Hd.
Qed.

(** What [main] does in a world whose READMEs can all be read. *)
Lemma main_run (U : UnicodeData) (w : world) (l : list path) :
  project_dir w = Some l -> Forall readable l ->
  main U w =
  match included l with
  | [] => (Ok tt, with_stdout
                    (stdout w ++ [lit "No project README files found!"]) w)
  | ps => write_branch U w ps
  end.
Proof.
  intros Hl F. unfold main, get_project_dirs, iterdir, bind at 1 2.
  rewrite Hl. unfold ret at 1. unfold bind at 1.
  rewrite (collect_projects_readable _ [] w (sorted_dirs_readable l F)).
  rewrite app_nil_l. fold (included l).
  destruct (included l) as [|p ps]; [reflexivity|].
  apply main_write_branch.
Qed.


(** ** The table of contents and the document as concatenations *)

Section Assembly.
Variable U : UnicodeData.

Lemma generate_toc_lines (projects : list project) :
  generate_toc U projects = toc_listing U (map fst projects).
Proof.
  unfold generate_toc, toc_listing.
  assert (G : forall ps i acc,
             snd (fold_left
                    (fun (st : N * str) (p : project) =>
                       let (i, toc) := st in
                       (i + 1, toc ++ toc_line U i (fst p)))
                    ps (i, acc))
             = acc ++ concat (toc_lines U i (map fst ps))).
  { induction ps as [|p ps IH]; intros i acc; simpl.
    - now rewrite app_nil_r.
    - rewrite IH. now rewrite <- app_assoc. }
  apply G.
Qed.

Lemma toc_lines_length (i : N) (names : list str) :
  length (toc_lines U i names) = length names.
Proof.
  revert i; induction names as [|n names IH]; intros i; simpl; auto.
Qed.

Lemma toc_lines_nth (names : list str) (i : N) (k : nat) (n : str) :
  nth_error names k = Some n ->
  nth_error (toc_lines U i names) k = Some (toc_line U (i + N.of_nat k) n).
Proof.
  revert i k; induction names as [|m names IH]; intros i [|k]; simpl;
    try discriminate.
  - intros [= ->]. now rewrite N.add_0_r.
  - intros H. rewrite (IH (i + 1) k H). do 2 f_equal. lia.
Qed.

Lemma build_portfolio_concat (date : str) (projects : list project) :
  build_portfolio U date projects
  = front_matter date (generate_toc U projects)
      ++ concat (map project_section projects).
Proof.
  unfold build_portfolio.
  generalize (front_matter date (generate_toc U projects)) as acc.
  induction projects as [|p ps IH]; intros acc; simpl.
  - now rewrite app_nil_r.
  - rewrite IH. now rewrite <- app_assoc.
Qed.
End Assembly.

(** ** Which directories are listed *)

Lemma filter_perm {A} (f : A -> bool) (l l' : list A) :
  Permutation l l' -> Permutation (filter f l) (filter f l').
Proof.
  induction 1 as [|x l l' P IH|x y l|l l' l'' P1 IH1 P2 IH2]; simpl.
  - constructor.
  - destruct (f x); [now constructor|exact IH].
  - destruct (f x), (f y); try reflexivity. apply perm_swap.
  - now transitivity (filter f l').
Qed.

Lemma filter_ordered {A} (R : A -> A -> Prop) (f : A -> bool) (l : list A) :
  StronglySorted R l -> StronglySorted R (filter f l).
Proof.
  induction 1 as [|x l S IH F]; simpl; [constructor|].
  destruct (f x); [|exact IH].
  constructor; [exact IH|].
  rewrite Forall_forall in *. intros y Hy. apply F.
  now apply filter_In in Hy.
Qed.

Lemma map_ordered {A B} (R : B -> B -> Prop) (g : A -> B) (l : list A) :
  StronglySorted (fun x y => R (g x) (g y)) l -> StronglySorted R (map g l).
Proof.
  induction 1 as [|x l S IH F]; simpl; constructor; [exact IH|].
  rewrite Forall_forall in *. intros y Hy.
  apply in_map_iff in Hy as [z [<- Hz]]. now apply F.
Qed.

Lemma has_content_is_dir (d : path) : has_content d = true -> is_dir d = true.
Proof.
  unfold has_content, is_dir. now destruct (on_disk d).
Qed.

Lemma filter_has_content_dirs (l : list path) :
  filter has_content (filter is_dir l) = filter has_content l.
Proof.
  induction l as [|d l IH]; simpl; [reflexivity|].
  destruct (is_dir d) eqn:E; simpl; rewrite IH; [reflexivity|].
  destruct (has_content d) eqn:C; [|reflexivity].
  apply has_content_is_dir in C. congruence.
Qed.

Lemma project_of_has_content (d : path) :
  map fst (project_of d) = if has_content d then [name d] else [].
Proof.
  unfold project_of, has_content, readme_of.
  now destruct (on_disk d) as [|[|[|c s]|]].
Qed.

Lemma included_names_filter (l : list path) :
  map fst (flat_map project_of l) = map name (filter has_content l).
Proof.
  induction l as [|d l IH]; [reflexivity|].
  cbn [flat_map filter].
  rewrite map_app, project_of_has_content.
  destruct (has_content d); simpl; [f_equal|]; exact IH.
Qed.

Lemma included_from_listing (l : list path) (p : project) :
  In p (included l) ->
  exists d, In d l /\ on_disk d = Dir (ReadmeText (snd p)) /\
            fst p = name d /\ snd p <> [].
Proof.
  unfold included. intros H. apply in_flat_map in H as [d [Hd Hp]].
  exists d.
  assert (Hl : In d (filter is_dir l))
    by (eapply Permutation_in; [apply sorted_perm|exact Hd]).
  apply filter_In in Hl as [Hl _].
  unfold project_of, readme_of in Hp.
  destruct (on_disk d) as [|[|[|c s]|]]; simpl in Hp; try contradiction.
  destruct Hp as [<-|[]]. simpl. repeat split; auto. discriminate.
Qed.

(** The names of the included projects are the names of the directories
    whose README has content, each once, in ascending order. *)
Lemma included_names (l : list path) :
  Permutation (map fst (included l)) (map name (filter has_content l)) /\
  StronglySorted str_le (map fst (included l)).
Proof.
  unfold included.
  rewrite (included_names_filter (sorted name (filter is_dir l))). split.
  - apply Permutation_map. rewrite <- (filter_has_content_dirs l).
    apply filter_perm, sorted_perm.
  - apply map_ordered, filter_ordered, sorted_ordered.
Qed.

Lemma included_nonempty (l : list path) :
  Exists (fun d => has_content d = true) l -> included l <> [].
Proof.
  intros E Hnil. destruct (included_names l) as [P _].
  rewrite Hnil in P. simpl in P. apply Permutation_nil in P.
  apply Exists_exists in E as [d [Hd Hc]].
  assert (In (name d) (map name (filter has_content l)))
    by (apply in_map, filter_In; auto).
  rewrite P in H. exact H.
Qed.

(** ** Text that can be stored *)

Lemma encodable_app (a b : str) :
  encodable (a ++ b) = encodable a && encodable b.
Proof.
  apply forallb_app.
Qed.

Lemma encodable_cons (c : cp) (s : str) :
  encodable (c :: s) = scalar c && encodable s.
Proof.
  reflexivity.
Qed.

Lemma encodable_lit (t : string) : encodable (lit t) = true.
Proof.
  unfold encodable, lit. apply forallb_forall. intros c Hc.
  apply in_map_iff in Hc as [a [<- _]].
  pose proof (N_ascii_bounded a) as H. unfold scalar.
  apply orb_true_iff. left. apply N.ltb_lt. lia.
Qed.

Lemma encodable_decimal (n : N) : encodable (decimal n) = true.
Proof.
  unfold decimal. induction (N.to_uint n) as [|d IH|d IH|d IH|d IH|d IH|d IH|d IH|d IH|d IH|d IH];
    cbn [uint_str]; try reflexivity; rewrite encodable_cons, IH; reflexivity.
Qed.

Lemma encodable_concat (ls : list str) :
  Forall (fun s => encodable s = true) ls -> encodable (concat ls) = true.
Proof.
  induction 1 as [|s ls Hs F IH]; [reflexivity|].
  cbn [concat]. now rewrite encodable_app, Hs, IH.
Qed.

Lemma encodable_replace (old new : cp) (s : str) :
  scalar new = true -> encodable s = true ->
  encodable (replace_char old new s) = true.
Proof.
  intros Hn Hs. unfold encodable, replace_char in *.
  rewrite forallb_forall in *. intros c Hc.
  apply in_map_iff in Hc as [c0 [<- Hc0]].
  destruct (c0 =? old); [exact Hn|now apply Hs].
Qed.

Lemma cut_first_encodable (sep : cp) (s : str) :
  encodable s = true ->
  encodable (fst (cut_first sep s)) = true /\
  (forall r, snd (cut_first sep s) = Some r -> encodable r = true).
Proof.
  induction s as [|c s IH]; cbn [cut_first].
  - intros _. split; [reflexivity|discriminate].
  - rewrite encodable_cons. intros H. apply andb_prop in H as [Hc Hs].
    destruct (c =? sep); cbn [fst snd].
    + split; [reflexivity|]. now intros r [= <-].
    + destruct (cut_first sep s) as [a o]. cbn [fst snd] in *.
      destruct (IH Hs) as [IH1 IH2]. split; [|exact IH2].
      now rewrite encodable_cons, Hc, IH1.
Qed.

Section Encodable.
Variable U : UnicodeData.
Hypothesis U_scalar : scalar_tables U.

Lemma lower_ucs4_encodable (before after : str) (c : cp) :
  scalar c = true -> encodable (lower_ucs4 U before c after) = true.
Proof.
  intros Hc. unfold lower_ucs4.
  destruct (c =? capital_sigma); [|now apply U_scalar].
  unfold handle_capital_sigma.
  match goal with |- context [if ?b then _ else _] => destruct b end;
    reflexivity.
Qed.

Lemma do_lower_encodable (before s : str) :
  encodable s = true -> encodable (do_lower U before s) = true.
Proof.
  revert before; induction s as [|c s IH]; intros before; [reflexivity|].
  rewrite encodable_cons. intros H. apply andb_prop in H as [Hc Hs].
  cbn [do_lower]. now rewrite encodable_app, lower_ucs4_encodable, IH.
Qed.

Lemma do_title_encodable (before : str) (b : bool) (s : str) :
  encodable s = true -> encodable (do_title U before b s) = true.
Proof.
  revert before b; induction s as [|c s IH]; intros before b; [reflexivity|].
  rewrite encodable_cons. intros H. apply andb_prop in H as [Hc Hs].
  cbn [do_title]. rewrite encodable_app, IH by exact Hs.
  destruct b; [rewrite lower_ucs4_encodable by exact Hc|];
    [reflexivity|].
  now destruct (U_scalar c Hc) as [_ ->].
Qed.

Lemma toc_title_encodable (name : str) :
  encodable name = true -> encodable (toc_title U name) = true.
Proof.
  intros H. unfold toc_title, py_title, split_once.
  assert (T : encodable
                (do_title U [] false (replace_char hyphen space name)) = true)
    by (apply do_title_encodable, encodable_replace; [reflexivity|exact H]).
  destruct (cut_first_encodable space _ T) as [T1 T2].
  destruct (cut_first space _) as [a [r|]]; cbn [fst snd nth length] in *.
  - destruct (isdigit U a && Nat.ltb 1 2); [now apply T2|exact T].
  - destruct (isdigit U a && Nat.ltb 1 1); [reflexivity|exact T].
Qed.

Lemma toc_anchor_encodable (name : str) :
  encodable name = true -> encodable (toc_anchor U name) = true.
Proof.
  intros H. unfold toc_anchor, py_lower.
  apply encodable_replace; [reflexivity|]. now apply do_lower_encodable.
Qed.

Lemma toc_line_encodable (i : N) (name : str) :
  encodable name = true -> encodable (toc_line U i name) = true.
Proof.
  intros H. unfold toc_line.
  now rewrite !encodable_app, !encodable_lit, encodable_decimal,
    toc_title_encodable, toc_anchor_encodable by exact H.
Qed.

Lemma toc_listing_encodable (names : list str) :
  Forall (fun n => encodable n = true) names ->
  encodable (toc_listing U names) = true.
Proof.
  intros F. unfold toc_listing, toc_heading.
  rewrite !encodable_app, encodable_lit. cbn [andb].
  rewrite andb_true_l. apply encodable_concat.
  generalize 1 as i. induction F as [|n names Hn F IH]; intros i;
    cbn [toc_lines]; constructor; [now apply toc_line_encodable|apply IH].
Qed.

Lemma project_section_encodable (p : project) :
  encodable (fst p) = true -> encodable (snd p) = true ->
  encodable (project_section p) = true.
Proof.
  intros H1 H2. unfold project_section.
  now rewrite !encodable_app, !encodable_lit, H1, H2.
Qed.
End Encodable.

(** What the document needs to be storable, and no more: the names and
    READMEs of the projects, the date and the tables. *)
Lemma build_portfolio_encodable
  (U : UnicodeData) (date : str) (ps : list project) :
  scalar_tables U -> encodable date = true ->
  Forall (fun p => encodable (fst p) = true /\ encodable (snd p) = true) ps ->
  encodable (build_portfolio U date ps) = true.
Proof.
  intros HU Hd F.
  assert (E : forall acc,
             encodable acc = true ->
             encodable
               (fold_left (fun portfolio p => portfolio ++ project_section p)
                  ps acc) = true).
  { induction F as [|p ps [H1 H2] F IH]; intros acc Ha; [exact Ha|].
    cbn [fold_left]. apply IH.
    now rewrite encodable_app, Ha, project_section_encodable. }
  unfold build_portfolio. apply E. unfold front_matter.
  rewrite generate_toc_lines.
  rewrite !encodable_app, !encodable_lit, Hd.
  rewrite (toc_listing_encodable U HU); [reflexivity|].
  apply Forall_map. eapply Forall_impl; [|exact F]. now intros p [H _].
Qed.

Lemma included_valid (l : list path) :
  forallb valid_unicode l = true ->
  Forall (fun p => encodable (fst p) = true /\ encodable (snd p) = true)
    (included l).
Proof.
  intros V. rewrite forallb_forall in V. apply Forall_forall.
  intros p Hp. apply included_from_listing in Hp as (d & Hd & Hs & Hn & _).
  specialize (V d Hd). unfold valid_unicode, readme_of in V. rewrite Hs in V.
  apply andb_prop in V as [V1 V2]. rewrite Hn. now split.
Qed.

(** The document of a successful run with at least one project. *)
Lemma main_writes (U : UnicodeData) (w : world) (l : list path) :
  scalar_tables U -> encodable (utc_date w) = true ->
  forallb valid_unicode l = true ->
  project_dir w = Some l -> Forall readable l ->
  output_file w <> OutBlocked -> included l <> [] ->
  main U w = (Ok tt, after_write U w (included l)).
Proof.
  intros HU Hd V Hl F Ho Hne. rewrite (main_run U w l Hl F).
  destruct (included l) as [|p ps] eqn:E; [congruence|].
  unfold write_branch. rewrite <- E.
  rewrite (build_portfolio_encodable U _ _ HU Hd (included_valid l V)).
  destruct (output_file w); congruence.
Qed.

(** C1, as stated, fails: [alpha] and [beta] both contain a README.md,
    yet the table of contents written by [main] lists [beta] alone and
    not the two of them. *)
Lemma toc_omits_empty_readme :
  map name (sorted name (filter contains_readme alpha_beta))
    = [lit "alpha"; lit "beta"] /\
  run_lists ucd_ascii alpha_beta_world [lit "beta"] /\
  ~ run_lists ucd_ascii alpha_beta_world [lit "alpha"; lit "beta"].
Proof.
  split; [reflexivity|]. split.
  - eexists. vm_compute. reflexivity.
  - intros [body H]. vm_compute in H. discriminate H.
Qed.

Lemma ucd_ascii_scalar : scalar_tables ucd_ascii.
Proof.
  intros c Hc. cbn [ucd_lower ucd_title ucd_ascii encodable forallb].
  rewrite !andb_true_r.
  unfold ascii_to_lower, ascii_to_upper, is_ascii_upper, is_ascii_lower.
  destruct (N.leb_spec 65 c), (N.leb_spec c 90), (N.leb_spec 97 c),
    (N.leb_spec c 122); cbn [andb]; split; try exact Hc;
    unfold scalar; apply orb_true_iff; left; apply N.ltb_lt; lia.
Qed.

(** C1 (amended): for every listing of the project root whose names and
    READMEs are valid Unicode text, whose READMEs can be read and whose
    output path can be written, the table of contents of the written
    document lists exactly the directories whose README.md has content
    (a README.md that is empty counts as absent), one entry per
    directory, in ascending code-point order of the names. *)
Theorem toc_lists_readmes_with_content
  (U : UnicodeData) (w : world) (l : list path) :
  scalar_tables U -> encodable (utc_date w) = true ->
  forallb valid_unicode l = true ->
  project_dir w = Some l -> Forall readable l ->
  output_file w <> OutBlocked ->
  Exists (fun d => has_content d = true) l ->
  exists names,
    run_lists U w names /\
    Permutation names (map name (filter has_content l)) /\
    StronglySorted str_le names.
Proof.
  intros HU Hd V Hl F Ho E.
  exists (map fst (included l)).
  destruct (included_names l) as [P S]. repeat split; auto.
  unfold run_lists.
  rewrite (main_writes U w l HU Hd V Hl F Ho (included_nonempty l E)).
  exists (concat (map project_section (included l))).
  unfold after_write; simpl.
  now rewrite build_portfolio_concat, generate_toc_lines.
Qed.

Lemma toc_lists_readmes_with_content_witness :
  exists names,
    run_lists ucd_ascii alpha_beta_world names /\
    Permutation names (map name (filter has_content alpha_beta)) /\
    StronglySorted str_le names.
Proof.
  apply (toc_lists_readmes_with_content ucd_ascii alpha_beta_world alpha_beta).
  - exact ucd_ascii_scalar.
  - reflexivity.
  - reflexivity.
  - reflexivity.
  - all_readable.
  - discriminate.
  - apply Exists_cons_hd. reflexivity.
Defined.

(** ** Bytes and text *)

Lemma utf8_encode_app (a b : str) :
  utf8_encode (a ++ b)
  = match utf8_encode a, utf8_encode b with
    | Some x, Some y => Some (x ++ y)
    | _, _ => None
    end.
Proof.
  induction a as [|c a IH]; cbn [app utf8_encode].
  - now destruct (utf8_encode b).
  - rewrite IH. destruct (utf8_encode_cp c); [|reflexivity].
    destruct (utf8_encode a); [|reflexivity].
    destruct (utf8_encode b); [|reflexivity].
    now rewrite app_assoc.
Qed.

Lemma utf8_encode_some (s : str) :
  encodable s = true -> exists bytes, utf8_encode s = Some bytes.
Proof.
  intros H. pose proof (utf8_encode_encodable s) as E.
  destruct (utf8_encode s) as [bytes|]; [now exists bytes|congruence].
Qed.

(** The bytes of a piece of a text are a piece of the bytes of the
    text. *)
Lemma utf8_encode_piece (x s y : str) (bytes bs : list N) :
  utf8_encode (x ++ s ++ y) = Some bytes -> utf8_encode s = Some bs ->
  exists bx by_, bytes = bx ++ bs ++ by_.
Proof.
  rewrite !utf8_encode_app. intros H Hs. rewrite Hs in H.
  destruct (utf8_encode x) as [bx|]; [|discriminate H].
  destruct (utf8_encode y) as [by_|]; [|discriminate H].
  injection H as <-. now exists bx, by_.
Qed.

Lemma small_cases (P : N -> Prop) (k : nat) :
  (forall i, (i < k)%nat -> P (N.of_nat i)) ->
  forall x, x < N.of_nat k -> P x.
Proof.
  intros H x Hx. rewrite <- (N2Nat.id x). apply H. lia.
Qed.

Ltac by_cases_below k :=
  intros x Hx; revert x Hx;
  apply (small_cases _ k);
  intros i Hi;
  repeat (destruct i as [|i]; [reflexivity|]); lia.

Lemma lor_128 : forall x, x < 64 -> N.lor 128 x = 128 + x.
Proof.
  by_cases_below 64%nat.
Qed.

Lemma lor_192 : forall x, x < 32 -> N.lor 192 x = 192 + x.
Proof.
  by_cases_below 32%nat.
Qed.

Lemma lor_224 : forall x, x < 16 -> N.lor 224 x = 224 + x.
Proof.
  by_cases_below 16%nat.
Qed.

Lemma lor_240 : forall x, x < 8 -> N.lor 240 x = 240 + x.
Proof.
  by_cases_below 8%nat.
Qed.

Lemma low_six (q r : N) :
  r < 64 ->
  N.shiftr (q * 64 + r) 6 = q /\ N.land (q * 64 + r) 63 = r.
Proof.
  intros Hr. split.
  - rewrite N.shiftr_div_pow2. change (2 ^ 6) with 64.
    symmetry. apply (N.div_unique _ 64 q r Hr). lia.
  - change 63 with (N.ones 6). rewrite N.land_ones. change (2 ^ 6) with 64.
    symmetry. apply (N.mod_unique _ 64 q r Hr). lia.
Qed.

Lemma shiftr_12 (q r : N) : r < 4096 -> N.shiftr (q * 4096 + r) 12 = q.
Proof.
  intros Hr. rewrite N.shiftr_div_pow2. change (2 ^ 12) with 4096.
  symmetry. apply (N.div_unique _ 4096 q r Hr). lia.
Qed.

Lemma shiftr_18 (q r : N) : r < 262144 -> N.shiftr (q * 262144 + r) 18 = q.
Proof.
  intros Hr. rewrite N.shiftr_div_pow2. change (2 ^ 18) with 262144.
  symmetry. apply (N.div_unique _ 262144 q r Hr). lia.
Qed.

Lemma two_bytes (h l : N) :
  h < 32 -> l < 64 -> 128 <= h * 64 + l ->
  utf8_bytes (h * 64 + l) = [192 + h; 128 + l].
Proof.
  intros Hh Hl Hc. unfold utf8_bytes.
  destruct (N.ltb_spec (h * 64 + l) 128); [lia|].
  destruct (N.ltb_spec (h * 64 + l) 2048); [|lia].
  destruct (low_six h l Hl) as [-> ->].
  now rewrite lor_192, lor_128.
Qed.

Lemma three_bytes (h m l : N) :
  h < 16 -> m < 64 -> l < 64 -> 2048 <= h * 4096 + m * 64 + l ->
  utf8_bytes (h * 4096 + m * 64 + l) = [224 + h; 128 + m; 128 + l].
Proof.
  intros Hh Hm Hl Hc. unfold utf8_bytes.
  destruct (N.ltb_spec (h * 4096 + m * 64 + l) 128); [lia|].
  destruct (N.ltb_spec (h * 4096 + m * 64 + l) 2048); [lia|].
  destruct (N.ltb_spec (h * 4096 + m * 64 + l) 65536); [|lia].
  rewrite <- N.add_assoc, (shiftr_12 h (m * 64 + l)) by lia.
  rewrite N.add_assoc.
  replace (h * 4096 + m * 64 + l) with ((h * 64 + m) * 64 + l) by lia.
  destruct (low_six (h * 64 + m) l Hl) as [-> ->].
  destruct (low_six h m Hm) as [_ ->].
  now rewrite lor_224, !lor_128.
Qed.

Lemma four_bytes (h a m l : N) :
  h < 8 -> a < 64 -> m < 64 -> l < 64 ->
  65536 <= h * 262144 + a * 4096 + m * 64 + l ->
  utf8_bytes (h * 262144 + a * 4096 + m * 64 + l)
  = [240 + h; 128 + a; 128 + m; 128 + l].
Proof.
  intros Hh Ha Hm Hl Hc. unfold utf8_bytes.
  set (c := h * 262144 + a * 4096 + m * 64 + l) in *.
  destruct (N.ltb_spec c 128); [lia|].
  destruct (N.ltb_spec c 2048); [lia|].
  destruct (N.ltb_spec c 65536); [lia|].
  assert (E18 : N.shiftr c 18 = h).
  { unfold c. rewrite <- !N.add_assoc. apply shiftr_18. lia. }
  assert (E12 : N.shiftr c 12 = h * 64 + a).
  { replace c with ((h * 64 + a) * 4096 + (m * 64 + l)) by (unfold c; lia).
    apply shiftr_12. lia. }
  assert (E6 : N.shiftr c 6 = (h * 64 + a) * 64 + m /\ N.land c 63 = l).
  { replace c with (((h * 64 + a) * 64 + m) * 64 + l) by (unfold c; lia).
    now apply low_six. }
  destruct E6 as [E6 E0]. rewrite E18, E12, E6, E0.
  destruct (low_six h a Ha) as [_ ->].
  destruct (low_six (h * 64 + a) m Hm) as [_ ->].
  now rewrite lor_240, !lor_128.
Qed.

Lemma utf8_encode_cons (c : cp) (s : str) (bs rest : list N) :
  scalar c = true -> utf8_bytes c = bs -> utf8_encode s = Some rest ->
  utf8_encode (c :: s) = Some (bs ++ rest).
Proof.
  intros Hc Hb Hs. cbn [utf8_encode]. unfold utf8_encode_cp.
  now rewrite Hc, Hb, Hs.
Qed.

(** ** README content in the document *)

Lemma included_in (l : list path) (d : path) (s : str) :
  In d l -> on_disk d = Dir (ReadmeText s) -> s <> [] ->
  In (name d, s) (included l).
Proof.
  intros Hd Hs Hne. unfold included. apply in_flat_map. exists d. split.
  - eapply Permutation_in; [symmetry; apply sorted_perm|].
    apply filter_In. split; [exact Hd|]. unfold is_dir. now rewrite Hs.
  - unfold project_of, readme_of. rewrite Hs.
    destruct s as [|c s]; [congruence|now left].
Qed.

Lemma included_from (l : list path) (p : project) :
  In p (included l) ->
  exists d, In d l /\ on_disk d = Dir (ReadmeText (snd p)) /\
            fst p = name d /\ snd p <> [].
Proof.
  apply included_from_listing.
Qed.

Lemma continuation_bounds (b : N) :
  is_continuation b = true -> b - 128 < 64 /\ 128 + (b - 128) = b.
Proof.
  unfold is_continuation. intros H. apply andb_prop in H as [H1 H2].
  apply N.leb_le in H1. apply N.leb_le in H2. lia.
Qed.

(** Encoding gives back the bytes that were decoded. *)
Lemma utf8_encode_decode_upto (n : nat) (bs : list N) (s : str) :
  (length bs <= n)%nat -> utf8_decode bs = Some s -> utf8_encode s = Some bs.
Proof.
  revert bs s; induction n as [|n IH]; intros bs s Hn H.
  - destruct bs; [now injection H as <-|cbn in Hn; lia].
  - destruct bs as [|b0 r0]; [now injection H as <-|].
    cbn [utf8_decode] in H. cbv zeta in H. cbn [length] in Hn.
    destruct (N.ltb_spec b0 128) as [L0|L0].
    { destruct (utf8_decode r0) as [t|] eqn:E; [|discriminate H].
      injection H as <-.
      apply (utf8_encode_cons b0 t [b0] r0).
      - unfold scalar. apply orb_true_iff. left. apply N.ltb_lt. lia.
      - unfold utf8_bytes. apply N.ltb_lt in L0. now rewrite L0.
      - apply IH; [lia|exact E]. }
    destruct (N.ltb_spec b0 224) as [L1|L1].
    { destruct r0 as [|b1 r1]; [discriminate H|].
      match type of H with (if ?c then _ else _) = _ =>
        destruct c eqn:C; [|discriminate H] end.
      apply andb_prop in C as [C C3]. apply andb_prop in C as [C1 C2].
      apply N.leb_le in C1. apply N.leb_le in C3.
      destruct (continuation_bounds b1 C2) as [B1 E1].
      destruct (utf8_decode r1) as [t|] eqn:E; [|discriminate H].
      injection H as <-.
      apply (utf8_encode_cons _ t [b0; b1] r1).
      - unfold scalar. apply orb_true_iff. left. apply N.ltb_lt. lia.
      - rewrite two_bytes by lia. rewrite E1. f_equal. lia.
      - apply IH; [cbn [length] in Hn; lia|exact E]. }
    destruct (N.ltb_spec b0 240) as [L2|L2].
    { destruct r0 as [|b1 [|b2 r2]]; try discriminate H.
      match type of H with (if ?c then _ else _) = _ =>
        destruct c eqn:C; [|discriminate H] end.
      apply andb_prop in C as [C C4]. apply andb_prop in C as [C C3].
      apply andb_prop in C as [C1 C2]. apply N.leb_le in C3.
      destruct (continuation_bounds b1 C1) as [B1 E1].
      destruct (continuation_bounds b2 C2) as [B2 E2].
      destruct (utf8_decode r2) as [t|] eqn:E; [|discriminate H].
      injection H as <-.
      apply (utf8_encode_cons _ t [b0; b1; b2] r2).
      - exact C4.
      - rewrite three_bytes by lia. rewrite E1, E2. f_equal. lia.
      - apply IH; [cbn [length] in Hn; lia|exact E]. }
    destruct r0 as [|b1 [|b2 [|b3 r3]]]; try discriminate H.
    match type of H with (if ?c then _ else _) = _ =>
      destruct c eqn:C; [|discriminate H] end.
    apply andb_prop in C as [C C6]. apply andb_prop in C as [C C5].
    apply andb_prop in C as [C C4]. apply andb_prop in C as [C C3].
    apply andb_prop in C as [C1 C2]. apply N.ltb_lt in C1.
    apply N.leb_le in C5.
    destruct (continuation_bounds b1 C2) as [B1 E1].
    destruct (continuation_bounds b2 C3) as [B2 E2].
    destruct (continuation_bounds b3 C4) as [B3 E3].
    destruct (utf8_decode r3) as [t|] eqn:E; [|discriminate H].
    injection H as <-.
    apply (utf8_encode_cons _ t [b0; b1; b2; b3] r3).
    + exact C6.
    + rewrite four_bytes by lia. rewrite E1, E2, E3. f_equal. lia.
    + apply IH; [cbn [length] in Hn; lia|exact E].
Qed.

Lemma utf8_encode_decode (bs : list N) (s : str) :
  utf8_decode bs = Some s -> utf8_encode s = Some bs.
Proof.
  apply (utf8_encode_decode_upto (length bs)). reflexivity.
Qed.

(** A character below U+0080 of a text is one of its bytes. *)
Lemma utf8_encode_keeps_ascii (s : str) (bs : list N) (c : cp) :
  utf8_encode s = Some bs -> In c s -> c < 128 -> In c bs.
Proof.
  revert bs; induction s as [|d s IH]; intros bs H Hin Hc; [contradiction|].
  cbn [utf8_encode] in H. unfold utf8_encode_cp in H.
  destruct (scalar d); [|discriminate H].
  destruct (utf8_encode s) as [rest|]; [|discriminate H].
  injection H as <-. apply in_or_app. destruct Hin as [->|Hin].
  - left. unfold utf8_bytes. apply N.ltb_lt in Hc. rewrite Hc. now left.
  - right. now apply IH.
Qed.

Lemma universal_newlines_no_cr (s : str) :
  ~ In cr s -> universal_newlines s = s.
Proof.
  induction s as [|c s IH]; [reflexivity|]. intros H.
  cbn [universal_newlines].
  destruct (N.eqb_spec c cr) as [->|_]; [exfalso; apply H; now left|].
  f_equal. apply IH. intros Hs. apply H. now right.
Qed.

(** A stored text without CR is read as it is stored: its bytes are the
    bytes of the text that the read returns. *)
Lemma read_stored_plain (bs : list N) (s : str) :
  read_stored bs = Some s -> ~ In cr bs -> utf8_encode s = Some bs.
Proof.
  unfold read_stored. intros H Hcr.
  destruct (utf8_decode bs) as [t|] eqn:E; [|discriminate H].
  injection H as <-. pose proof (utf8_encode_decode bs t E) as R.
  rewrite universal_newlines_no_cr; [exact R|].
  intros Hin. apply Hcr.
  apply (utf8_encode_keeps_ascii t bs cr R Hin). reflexivity.
Qed.

Lemma has_cr (bs : list N) :
  In cr bs -> existsb (N.eqb cr) bs = true.
Proof.
  intros H. apply existsb_exists. exists cr. split; [exact H|apply N.eqb_refl].
Qed.

(** C2, as stated, fails: a README.md stored with CR LF line ends (the
    bytes of 'a', CR, LF, 'b') is read as 'a', LF, 'b'; the written
    document holds that text, and neither the document nor the bytes of
    the written file contain the stored README. *)
Lemma crlf_readme_is_rewritten :
  In {| name := lit "dos"; on_disk := Dir (readme_file crlf_bytes) |}
    crlf_listing /\
  exists doc bytes,
    output_file (snd (main ucd_ascii crlf_world)) = OutFile doc /\
    utf8_encode doc = Some bytes /\
    ~ (exists pre suf, bytes = pre ++ crlf_bytes ++ suf) /\
    ~ (exists pre suf, doc = pre ++ crlf_bytes ++ suf).
Proof.
  split; [now left|].
  eexists. eexists. split; [vm_compute; reflexivity|].
  split; [vm_compute; reflexivity|].
  split; intros (pre & suf & E).
  - assert (H : In cr (pre ++ crlf_bytes ++ suf))
      by (apply in_or_app; right; apply in_or_app; left; right; now left).
    rewrite <- E in H. apply has_cr in H. vm_compute in H. discriminate H.
  - assert (H : In cr (pre ++ crlf_bytes ++ suf))
      by (apply in_or_app; right; apply in_or_app; left; right; now left).
    rewrite <- E in H. apply has_cr in H. vm_compute in H. discriminate H.
Qed.

(** C2 (amended): for every included project (a directory of a listing
    of valid Unicode text whose README.md, stored as the bytes [bs], is
    read in text mode as the non-empty text [s]: the bytes decoded, CR LF
    and CR turned into LF), the document that [main] writes contains [s]
    unchanged as one contiguous piece, code point for code point, right
    after the comment that names the directory and followed by a line
    break; and when the stored README holds no CR, the bytes of the
    written file contain the stored bytes of the README, byte for byte,
    as one contiguous piece. *)
Theorem readme_verbatim
  (U : UnicodeData) (w : world) (l : list path) (d : path)
  (bs : list N) (s : str) :
  scalar_tables U -> encodable (utc_date w) = true ->
  forallb valid_unicode l = true ->
  project_dir w = Some l -> Forall readable l ->
  output_file w <> OutBlocked ->
  In d l -> on_disk d = Dir (readme_file bs) ->
  read_stored bs = Some s -> s <> [] ->
  exists doc pre suf,
    output_file (snd (main U w)) = OutFile doc /\
    doc = pre ++ lit "<!-- PROJECT: " ++ name d ++ lit " -->"
            ++ [nl; nl] ++ s ++ [nl] ++ suf /\
    (~ In cr bs ->
     exists bytes bpre bsuf,
       utf8_encode doc = Some bytes /\ bytes = bpre ++ bs ++ bsuf).
Proof.
  intros HU Hdate V Hl F Ho Hd Hfile Hread Hne.
  unfold readme_file in Hfile. rewrite Hread in Hfile.
  pose proof (included_in l d s Hd Hfile Hne) as Hin.
  assert (Hinc : included l <> []) by (intros E; now rewrite E in Hin).
  rewrite (main_writes U w l HU Hdate V Hl F Ho Hinc).
  pose proof (build_portfolio_encodable U (utc_date w) (included l) HU Hdate
                (included_valid l V)) as Henc.
  apply in_split in Hin as [l1 [l2 E]].
  unfold after_write. cbn [snd output_file with_stdout with_output].
  rewrite build_portfolio_concat, E, map_app, concat_app in *.
  cbn [map concat] in *.
  change (project_section (name d, s))
    with (([nl; nl] ++ lit "---" ++ [nl; nl])
            ++ lit "<!-- PROJECT: " ++ name d ++ lit " -->"
            ++ [nl; nl] ++ s ++ [nl]) in *.
  set (pre := front_matter (utc_date w)
                (generate_toc U (l1 ++ (name d, s) :: l2))
              ++ concat (map project_section l1)
              ++ [nl; nl] ++ lit "---" ++ [nl; nl]).
  set (suf := concat (map project_section l2)).
  assert (D : front_matter (utc_date w)
                (generate_toc U (l1 ++ (name d, s) :: l2))
              ++ concat (map project_section l1)
              ++ (([nl; nl] ++ lit "---" ++ [nl; nl])
                    ++ lit "<!-- PROJECT: " ++ name d ++ lit " -->"
                    ++ [nl; nl] ++ s ++ [nl]) ++ suf
              = pre ++ lit "<!-- PROJECT: " ++ name d ++ lit " -->"
                  ++ [nl; nl] ++ s ++ [nl] ++ suf).
  { unfold pre. rewrite <- !app_assoc. reflexivity. }
  fold suf in Henc |- *. rewrite D in *.
  eexists. exists pre, suf. split; [reflexivity|]. split; [reflexivity|].
  intros Hcr.
  destruct (utf8_encode_some _ Henc) as [bytes Hb].
  pose proof (read_stored_plain bs s Hread Hcr) as Hs.
  replace (pre ++ lit "<!-- PROJECT: " ++ name d ++ lit " -->"
             ++ [nl; nl] ++ s ++ [nl] ++ suf)
    with ((pre ++ lit "<!-- PROJECT: " ++ name d ++ lit " -->" ++ [nl; nl])
            ++ s ++ [nl] ++ suf) in Hb
    by (rewrite <- !app_assoc; reflexivity).
  destruct (utf8_encode_piece _ s _ bytes bs Hb Hs) as (bx & by_ & Eb).
  exists bytes, bx, by_. split; [|exact Eb].
  rewrite <- Hb. f_equal. rewrite <- !app_assoc. reflexivity.
Qed.

Lemma readme_verbatim_witness :
  exists doc pre suf,
    output_file (snd (main ucd_ascii accent_world)) = OutFile doc /\
    doc = pre ++ lit "<!-- PROJECT: " ++ lit "cafe" ++ lit " -->"
            ++ [nl; nl] ++ [233] ++ [nl] ++ suf /\
    (~ In cr [195; 169] ->
     exists bytes bpre bsuf,
       utf8_encode doc = Some bytes /\ bytes = bpre ++ [195; 169] ++ bsuf).
Proof.
  apply (readme_verbatim ucd_ascii accent_world accent_listing
           {| name := lit "cafe"; on_disk := Dir (ReadmeText [233]) |}
           [195; 169] [233]).
  - exact ucd_ascii_scalar.
  - reflexivity.
  - reflexivity.
  - reflexivity.
  - all_readable.
  - discriminate.
  - now left.
  - reflexivity.
  - reflexivity.
  - discriminate.
Defined.

(** ** Titles *)

Lemma cut_first_none (sep : cp) (s : str) :
  ~ In sep s -> cut_first sep s = (s, None).
Proof.
  induction s as [|c r IH]; simpl; [reflexivity|]. intros H.
  destruct (N.eqb_spec c sep) as [->|Hc]; [exfalso; apply H; now left|].
  rewrite IH; [reflexivity|]. intros Hr. apply H. now right.
Qed.

Lemma cut_first_some (sep : cp) (d rest : str) :
  ~ In sep d -> cut_first sep (d ++ sep :: rest) = (d, Some rest).
Proof.
  induction d as [|c d IH]; simpl; intros H.
  - now rewrite N.eqb_refl.
  - destruct (N.eqb_spec c sep) as [->|Hc]; [exfalso; apply H; now left|].
    rewrite IH; [reflexivity|]. intros Hr. apply H. now right.
Qed.

Section Titles.
Variable U : UnicodeData.

Let previous_cased (pre : str) : bool :=
  match rev pre with
  | c :: _ => ucd_cased U c
  | [] => false
  end.

Lemma title_at_boundary (pre : str) (c : cp) (r : str) :
  title_at U (pre ++ c :: r) (length pre)
  = if previous_cased pre then lower_ucs4 U (rev pre) c r
    else ucd_title U c.
Proof.
  unfold title_at, previous_cased.
  rewrite nth_middle.
  destruct pre as [|p pre _] using rev_ind; [reflexivity|].
  rewrite rev_app_distr. cbn [rev app].
  rewrite length_app. cbn [length]. rewrite Nat.add_1_r.
  replace (nth (length pre) ((pre ++ [p]) ++ c :: r) 0) with p
    by (rewrite <- app_assoc; cbn [app]; now rewrite nth_middle).
  destruct (ucd_cased U p); [|reflexivity].
  f_equal.
  - replace (S (length pre)) with (length (pre ++ [p]) + 0)%nat
      by (rewrite length_app; simpl; lia).
    rewrite firstn_app_2. cbn [firstn]. rewrite app_nil_r.
    rewrite rev_app_distr. reflexivity.
  - replace (S (S (length pre))) with (length (pre ++ [p; c]))
      by (rewrite length_app; simpl; lia).
    replace ((pre ++ [p]) ++ c :: r) with ((pre ++ [p; c]) ++ r)
      by (now rewrite <- !app_assoc).
    now rewrite skipn_app, skipn_all, Nat.sub_diag.
Qed.

Lemma do_title_positions (pre s : str) :
  do_title U (rev pre) (previous_cased pre) s
  = flat_map (title_at U (pre ++ s)) (seq (length pre) (length s)).
Proof.
  revert pre; induction s as [|c r IH]; intros pre; [reflexivity|].
  cbn [do_title length seq flat_map].
  rewrite title_at_boundary. f_equal.
  specialize (IH (pre ++ [c])).
  rewrite rev_app_distr in IH. cbn [rev app] in IH.
  replace (previous_cased (pre ++ [c])) with (ucd_cased U c) in IH
    by (unfold previous_cased; now rewrite rev_app_distr).
  rewrite IH, <- app_assoc, length_app. cbn [app length].
  now rewrite Nat.add_1_r.
Qed.

(** [str.title], position by position. *)
Lemma py_title_positions (s : str) :
  py_title U s = flat_map (title_at U s) (seq 0 (length s)).
Proof.
  exact (do_title_positions [] s).
Qed.

(** C3 (amended): the title of a directory name is its text with every
    '-' replaced by a space and title-cased the way Python's str.title
    does it -- the character at each position is put in title case when
    it is the first or follows an uncased character (a digit, a space,
    punctuation) and in lower case when it follows a cased one, so
    'k8s' becomes 'K8S' and 'API' becomes 'Api' -- and then, when that
    text has a space and the part before its first space is not empty
    and all digits, that part and the space are dropped ('01-proxy'
    yields 'Proxy'); otherwise the text is kept. *)
Theorem toc_title_spec (name : str) :
  let s := replace_char hyphen space name in
  let t := py_title U s in
  t = flat_map (title_at U s) (seq 0 (length s)) /\
  (~ In space t -> toc_title U name = t) /\
  (forall d rest, t = d ++ space :: rest -> ~ In space d ->
     toc_title U name = if isdigit U d then rest else t).
Proof.
  intros s t. split; [apply py_title_positions|]. split.
  - intros H. unfold toc_title, split_once. fold s. fold t.
    rewrite (cut_first_none space t H). cbn [nth length Nat.ltb Nat.leb].
    now rewrite andb_false_r.
  - intros d rest E H. unfold toc_title, split_once. fold s. fold t.
    rewrite E, (cut_first_some space d rest H).
    cbn [nth length Nat.ltb Nat.leb]. now rewrite andb_true_r.
Qed.
End Titles.

Lemma toc_title_spec_witness :
  toc_title ucd_ascii (lit "01-proxy") = lit "Proxy".
Proof.
  destruct (toc_title_spec ucd_ascii (lit "01-proxy")) as (_ & _ & H).
  rewrite (H (lit "01") (lit "Proxy")).
  - reflexivity.
  - reflexivity.
  - intros [E|[E|[]]]; discriminate E.
Defined.

(** C3, as stated, fails: capitalising the first letter of each
    whitespace-separated word turns '01-k8s-app' into 'K8s App', while
    the script yields 'K8S App'. *)
Lemma toc_title_not_word_capitalisation :
  toc_title ucd_ascii (lit "01-k8s-app") = lit "K8S App" /\
  spec_toc_title ucd_ascii (lit "01-k8s-app") = lit "K8s App" /\
  toc_title ucd_ascii (lit "01-k8s-app")
    <> spec_toc_title ucd_ascii (lit "01-k8s-app").
Proof.
  repeat split; try reflexivity. vm_compute. discriminate.
Qed.

(** ** Numerals *)

Lemma str_uint_uint_str (d : Decimal.uint) : str_uint (uint_str d) = Some d.
Proof.
  induction d; simpl; try rewrite IHd; reflexivity.
Qed.

Lemma uint_str_digits (d : Decimal.uint) :
  Forall (fun c => is_ascii_digit c = true) (uint_str d).
Proof.
  induction d; simpl; constructor; auto.
Qed.

Lemma decimal_nonempty (n : N) : decimal n <> [].
Proof.
  unfold decimal. destruct n as [|p]; [discriminate|].
  pose proof (DecimalPos.Unsigned.to_uint_nonnil p) as H.
  simpl. destruct (Pos.to_uint p); try congruence; discriminate.
Qed.

(** A printed number reads back as itself. *)
Lemma parse_decimal_decimal (n : N) : parse_decimal (decimal n) = Some n.
Proof.
  unfold parse_decimal. pose proof (decimal_nonempty n) as H.
  destruct (decimal n) eqn:E; [congruence|].
  rewrite <- E. unfold decimal. rewrite str_uint_uint_str. simpl.
  now rewrite DecimalN.Unsigned.of_to.
Qed.

Lemma decimal_inj (a b : N) : decimal a = decimal b -> a = b.
Proof.
  intros E. pose proof (parse_decimal_decimal a) as Ha.
  rewrite E, parse_decimal_decimal in Ha. congruence.
Qed.

Lemma strip_commas_group (k : nat) (l : str) :
  Forall (fun c => is_ascii_digit c = true) l ->
  strip_commas (group_thousands k l) = l.
Proof.
  intros F; revert k; induction F as [|d l Hd F IH]; intros k;
    [reflexivity|].
  assert (Hc : negb (d =? comma) = true).
  { unfold is_ascii_digit, comma in *. apply andb_prop in Hd as [H1 _].
    apply N.leb_le in H1. apply negb_true_iff, N.eqb_neq. lia. }
  cbn [group_thousands]. destruct l as [|e l].
  - unfold strip_commas. cbn [filter]. now rewrite Hc.
  - destruct k as [|[|[|k]]]; unfold strip_commas in *; cbn [filter];
      rewrite Hc; f_equal; apply IH.
Qed.

(** The thousands separators carry no information: without them the
    grouped number is the plain numeral. *)
Lemma strip_commas_format (n : N) : strip_commas (format_commas n) = decimal n.
Proof.
  unfold format_commas, strip_commas.
  rewrite <- (rev_involutive (filter _ (rev _))), <- filter_rev, rev_involutive.
  fold (strip_commas (group_thousands 0 (rev (decimal n)))).
  rewrite strip_commas_group; [apply rev_involutive|].
  apply Forall_rev, uint_str_digits.
Qed.

Lemma read_back_size (n : N) :
  parse_decimal (strip_commas (format_commas n)) = Some n.
Proof.
  rewrite strip_commas_format. apply parse_decimal_decimal.
Qed.

(** ** Entries of the table of contents *)

Section Entries.
Variable U : UnicodeData.

Lemma toc_lines_enumerate (a : nat) (names : list str) :
  toc_lines U (N.of_nat a) names
  = map (fun e => toc_line U (N.of_nat (fst e)) (snd e))
      (combine (seq a (length names)) names).
Proof.
  revert a; induction names as [|n names IH]; intros a; [reflexivity|].
  cbn [toc_lines length seq combine map fst snd]. f_equal.
  rewrite <- IH. f_equal. lia.
Qed.

Lemma combine_seq_fst {A} (a : nat) (l : list A) :
  map fst (combine (seq a (length l)) l) = seq a (length l).
Proof.
  revert a; induction l as [|x l IH]; intros a; simpl; [reflexivity|].
  now rewrite IH.
Qed.

Lemma combine_seq_snd {A} (a : nat) (l : list A) :
  map snd (combine (seq a (length l)) l) = l.
Proof.
  revert a; induction l as [|x l IH]; intros a; simpl; [reflexivity|].
  now rewrite IH.
Qed.

(** C4: the table of contents is its heading followed by one line per
    project, in the order of the projects; the lines carry the numbers
    1, 2, ..., n in that order (n the number of projects), each printed
    as a decimal numeral that reads back as that number, and each line
    has the form [{index}. [{title}](#{anchor})] and ends the line. *)
Theorem toc_numbering (projects : list project) :
  let n := length projects in
  let numbered := combine (seq 1 n) (map fst projects) in
  generate_toc U projects
  = toc_heading
      ++ concat (map (fun e =>
                        decimal (N.of_nat (fst e)) ++ lit ". ["
                          ++ toc_title U (snd e) ++ lit "](#"
                          ++ toc_anchor U (snd e) ++ lit ")" ++ [nl])
                   numbered) /\
  map fst numbered = seq 1 n /\
  map snd numbered = map fst projects /\
  Forall (fun i => parse_decimal (decimal (N.of_nat i)) = Some (N.of_nat i))
    (seq 1 n).
Proof.
  intros n numbered. subst numbered n.
  rewrite <- (length_map fst projects). repeat split.
  - rewrite generate_toc_lines. unfold toc_listing.
    change 1 with (N.of_nat 1). now rewrite toc_lines_enumerate.
  - apply combine_seq_fst.
  - apply combine_seq_snd.
  - apply Forall_forall. intros i _. apply parse_decimal_decimal.
Qed.

Lemma do_lower_ascii (before s : str) :
  ascii_exact U -> is_ascii s -> do_lower U before s = map ascii_to_lower s.
Proof.
  intros HU F; revert before; induction F as [|c s Hc F IH]; intros before;
    [reflexivity|].
  cbn [do_lower map]. rewrite IH. unfold lower_ucs4.
  destruct (N.eqb_spec c capital_sigma) as [E|_].
  - unfold capital_sigma in E. lia.
  - destruct (HU c Hc) as (-> & _). reflexivity.
Qed.

Lemma ascii_to_lower_space (c : cp) :
  (ascii_to_lower c =? space) = (c =? space).
Proof.
  unfold ascii_to_lower, is_ascii_upper, space.
  destruct (N.leb_spec 65 c), (N.leb_spec c 90); simpl; try reflexivity.
  destruct (N.eqb_spec (c + 32) 32), (N.eqb_spec c 32); try reflexivity; lia.
Qed.

(** C5: in the line of every project the link target is the anchor
    computed from the directory name itself, not from the title: the
    name lower-cased, then with every space replaced by a hyphen.  On an
    ASCII name that is, character by character, a hyphen for a space,
    the small letter for a capital letter and the character itself
    otherwise. *)
Theorem toc_anchor_slug (projects : list project) (k : nat) (name content : str) :
  nth_error projects k = Some (name, content) ->
  let anchor := replace_char space hyphen (py_lower U name) in
  (exists before after title,
     generate_toc U projects
     = toc_heading ++ concat before
         ++ (decimal (N.of_nat (S k)) ++ lit ". [" ++ title ++ lit "](#"
               ++ anchor ++ lit ")" ++ [nl])
         ++ concat after /\
     length before = k) /\
  (ascii_exact U -> is_ascii name ->
   anchor = map (fun c => if c =? space then hyphen else ascii_to_lower c) name).
Proof.
  intros Hk anchor. split.
  - assert (Hn : nth_error (map fst projects) k = Some name)
      by (rewrite nth_error_map, Hk; reflexivity).
    pose proof (toc_lines_nth U _ 1 k name Hn) as Hline.
    apply nth_error_split in Hline as (before & after & E & Hlen).
    exists before, after, (toc_title U name). split; [|exact Hlen].
    rewrite generate_toc_lines. unfold toc_listing. rewrite E.
    rewrite concat_app. cbn [concat]. unfold toc_line, toc_anchor.
    fold anchor. replace (1 + N.of_nat k) with (N.of_nat (S k)) by lia.
    reflexivity.
  - intros HU Ha. unfold anchor, py_lower.
    rewrite (do_lower_ascii [] name HU Ha). unfold replace_char.
    rewrite map_map. apply map_ext. intros c.
    now rewrite ascii_to_lower_space.
Qed.
End Entries.

Lemma ucd_ascii_exact : ascii_exact ucd_ascii.
Proof.
  intros c _. repeat split.
Qed.

Lemma toc_anchor_slug_witness :
  (exists before after title,
     generate_toc ucd_ascii [(lit "01-proxy", lit "x"); (lit "My Dir", lit "y")]
     = toc_heading ++ concat before
         ++ (decimal 2 ++ lit ". [" ++ title ++ lit "](#"
               ++ lit "my-dir" ++ lit ")" ++ [nl])
         ++ concat after /\
     length before = 1%nat) /\
  lit "my-dir"
  = map (fun c => if c =? space then hyphen else ascii_to_lower c)
      (lit "My Dir").
Proof.
  destruct (toc_anchor_slug ucd_ascii
              [(lit "01-proxy", lit "x"); (lit "My Dir", lit "y")]
              1 (lit "My Dir") (lit "y") eq_refl) as [H1 H2].
  split; [exact H1|].
  apply (H2 ucd_ascii_exact). repeat constructor.
Defined.

(** The anchor comes from the name and keeps the number that the title
    drops. *)
Example anchor_of_01_proxy :
  toc_anchor ucd_ascii (lit "01-proxy") = lit "01-proxy" /\
  toc_title ucd_ascii (lit "01-proxy") = lit "Proxy".
Proof.
  split; reflexivity.
Qed.

(** ** The run without a project *)

Lemma nothing_to_include_readable (l : list path) :
  Forall nothing_to_include l -> Forall readable l.
Proof.
  apply Forall_impl. intros d [H|H]; unfold readable; rewrite H; discriminate.
Qed.

Lemma nothing_included (l : list path) :
  Forall nothing_to_include l -> included l = [].
Proof.
  intros F. unfold included.
  assert (G : Forall nothing_to_include (sorted name (filter is_dir l))).
  { eapply Permutation_Forall; [symmetry; apply sorted_perm|].
    rewrite Forall_forall in *. intros d Hd. apply F.
    now apply filter_In in Hd. }
  induction G as [|d ds Hd G IH]; [reflexivity|].
  cbn [flat_map]. rewrite IH, app_nil_r.
  unfold project_of. destruct Hd as [-> | ->]; reflexivity.
Qed.

(** C6: when the project root can be listed and no entry of it is a
    directory with a README to include (none at all, no entry at all, or
    only empty ones), [main] completes normally, prints the single line
    'No project README files found!', writes nothing and leaves the
    output path and the rest of the world as they were. *)
Theorem no_projects_no_write (U : UnicodeData) (w : world) (l : list path) :
  project_dir w = Some l -> Forall nothing_to_include l ->
  fst (main U w) = Ok tt /\
  stdout (snd (main U w)) = stdout w ++ [lit "No project README files found!"] /\
  output_file (snd (main U w)) = output_file w /\
  project_dir (snd (main U w)) = project_dir w /\
  utc_date (snd (main U w)) = utc_date w.
Proof.
  intros Hl F.
  rewrite (main_run U w l Hl (nothing_to_include_readable l F)).
  rewrite (nothing_included l F). repeat split.
Qed.

Lemma no_projects_no_write_witness :
  fst (main ucd_ascii no_readme_world) = Ok tt /\
  stdout (snd (main ucd_ascii no_readme_world))
    = [lit "No project README files found!"] /\
  output_file (snd (main ucd_ascii no_readme_world)) = OutFile (lit "kept").
Proof.
  destruct (no_projects_no_write ucd_ascii no_readme_world no_readme_listing
              eq_refl) as (H1 & H2 & H3 & _).
  - repeat constructor; left; reflexivity.
  - repeat split; assumption.
Defined.

(** With no sub-directory at all the same holds. *)
Example no_directories (U : UnicodeData) (w : world) :
  project_dir w = Some [] ->
  main U w
  = (Ok tt, with_stdout (stdout w ++ [lit "No project README files found!"]) w).
Proof.
  intros Hl. now rewrite (main_run U w [] Hl (Forall_nil _)).
Qed.

(** ** The README reader *)

(** C7: for a project directory that holds a file README.md with text
    [s], [read_readme] returns that text, whole; for one that holds no
    README.md it returns [None] and raises nothing; in both cases the
    world is untouched, and [None] differs from every text that can be
    returned, the empty one included. *)
Theorem read_readme_contract (d : path) (w : world) :
  (forall s, on_disk d = Dir (ReadmeText s) ->
             read_readme d w = (Ok (Some s), w)) /\
  (readme_of d = NoReadme -> read_readme d w = (Ok None, w)) /\
  (forall d' s, on_disk d' = Dir (ReadmeText s) -> readme_of d = NoReadme ->
                fst (read_readme d w) <> fst (read_readme d' w)).
Proof.
  unfold read_readme, readme_of. repeat split.
  - intros s ->. reflexivity.
  - intros ->. reflexivity.
  - intros d' s -> ->. simpl. discriminate.
Qed.

Lemma read_readme_contract_witness :
  read_readme {| name := lit "01-proxy"; on_disk := Dir (ReadmeText (lit "# Proxy")) |}
    alpha_beta_world
    = (Ok (Some (lit "# Proxy")), alpha_beta_world) /\
  read_readme {| name := lit "03-empty"; on_disk := Dir NoReadme |}
    alpha_beta_world
    = (Ok None, alpha_beta_world) /\
  fst (read_readme {| name := lit "03-empty"; on_disk := Dir NoReadme |}
         alpha_beta_world)
  <> fst (read_readme {| name := lit "04-blank"; on_disk := Dir (ReadmeText []) |}
            alpha_beta_world).
Proof.
  split; [|split].
  - apply (read_readme_contract
             {| name := lit "01-proxy"; on_disk := Dir (ReadmeText (lit "# Proxy")) |}
             alpha_beta_world).
    reflexivity.
  - apply (read_readme_contract
             {| name := lit "03-empty"; on_disk := Dir NoReadme |}
             alpha_beta_world).
    reflexivity.
  - apply (read_readme_contract
             {| name := lit "03-empty"; on_disk := Dir NoReadme |}
             alpha_beta_world) with (s := []); reflexivity.
Defined.

(** ** One run and the next *)

Lemma NoDup_map_filter {A B} (g : A -> B) (f : A -> bool) (l : list A) :
  NoDup (map g l) -> NoDup (map g (filter f l)).
Proof.
  induction l as [|x l IH]; simpl; [auto|].
  intros ND. inversion ND as [|? ? Hx ND']; subst.
  destruct (f x); [|now apply IH].
  simpl. constructor; [|now apply IH].
  intros H. apply Hx. apply in_map_iff in H as [y [E Hy]].
  apply filter_In in Hy as [Hy _]. rewrite <- E. now apply in_map.
Qed.

(** The projects do not depend on the order in which the operating
    system lists the root. *)
Lemma included_perm_invariant (l l' : list path) :
  Permutation l l' -> NoDup (map name l) -> included l = included l'.
Proof.
  intros P ND. unfold included. f_equal.
  apply sorted_perm_invariant.
  - now apply filter_perm.
  - now apply NoDup_map_filter.
Qed.

Lemma has_content_perm (l l' : list path) :
  Permutation l l' ->
  Exists (fun d => has_content d = true) l ->
  Exists (fun d => has_content d = true) l'.
Proof.
  intros P E. apply Exists_exists in E as [d [Hd Hc]].
  apply Exists_exists. exists d. split; [|exact Hc].
  eapply Permutation_in; eauto.
Qed.

Lemma valid_unicode_perm (l l' : list path) :
  Permutation l l' ->
  forallb valid_unicode l = true -> forallb valid_unicode l' = true.
Proof.
  intros P V. rewrite forallb_forall in *. intros d Hd. apply V.
  eapply Permutation_in; [symmetry; exact P|exact Hd].
Qed.

(** C8: two runs over the same directories and README contents (valid
    Unicode text, names pairwise distinct) -- listed by the operating
    system in whatever order, with whatever the console and the output
    path held before -- write documents that are equal except for the
    date: both are one fixed text before the date and one fixed text
    after it, around the date of each run.  With the same date the two
    documents are identical. *)
Theorem main_deterministic
  (U : UnicodeData) (w1 w2 : world) (l1 l2 : list path) :
  scalar_tables U ->
  encodable (utc_date w1) = true -> encodable (utc_date w2) = true ->
  forallb valid_unicode l1 = true ->
  project_dir w1 = Some l1 -> project_dir w2 = Some l2 ->
  Permutation l1 l2 -> NoDup (map name l1) ->
  Forall readable l1 ->
  output_file w1 <> OutBlocked -> output_file w2 <> OutBlocked ->
  Exists (fun d => has_content d = true) l1 ->
  (exists pre suf,
     output_file (snd (main U w1)) = OutFile (pre ++ utc_date w1 ++ suf) /\
     output_file (snd (main U w2)) = OutFile (pre ++ utc_date w2 ++ suf)) /\
  (utc_date w1 = utc_date w2 ->
   output_file (snd (main U w1)) = output_file (snd (main U w2))).
Proof.
  intros HU D1 D2 V H1 H2 P ND F O1 O2 E.
  assert (F2 : Forall readable l2) by (eapply Permutation_Forall; eauto).
  pose proof (has_content_perm l1 l2 P E) as E2.
  pose proof (valid_unicode_perm l1 l2 P V) as V2.
  rewrite (main_writes U w1 l1 HU D1 V H1 F O1 (included_nonempty l1 E)).
  rewrite (main_writes U w2 l2 HU D2 V2 H2 F2 O2 (included_nonempty l2 E2)).
  rewrite <- (included_perm_invariant l1 l2 P ND).
  unfold after_write. cbn [snd output_file with_stdout with_output].
  split.
  - rewrite !build_portfolio_concat. unfold front_matter.
    exists (lit "# DevSecOps & Cloud Security Portfolio" ++ [nl; nl]
              ++ lit "> **BAMG Studio** | Generated ").
    eexists. split; rewrite <- !app_assoc; reflexivity.
  - intros ->. reflexivity.
Qed.

Lemma main_deterministic_witness :
  exists pre suf,
    output_file (snd (main ucd_ascii alpha_beta_world))
      = OutFile (pre ++ lit "2024-05-01" ++ suf) /\
    output_file (snd (main ucd_ascii alpha_beta_next_day))
      = OutFile (pre ++ lit "2024-05-02" ++ suf).
Proof.
  apply (main_deterministic ucd_ascii alpha_beta_world alpha_beta_next_day
           alpha_beta alpha_beta).
  - exact ucd_ascii_scalar.
  - reflexivity.
  - reflexivity.
  - reflexivity.
  - reflexivity.
  - reflexivity.
  - reflexivity.
  - names_distinct.
  - all_readable.
  - discriminate.
  - discriminate.
  - apply Exists_cons_hd. reflexivity.
Defined.

(** ** The summary on the console *)

Lemma ascii_encodable (s : str) : is_ascii s -> encodable s = true.
Proof.
  intros A. apply forallb_forall. unfold is_ascii in A.
  rewrite Forall_forall in A. intros c Hc. specialize (A c Hc).
  unfold scalar. apply orb_true_iff. left. apply N.ltb_lt. lia.
Qed.

Lemma utf8_encode_ascii (s : str) : is_ascii s -> utf8_encode s = Some s.
Proof.
  induction 1 as [|c s Hc F IH]; [reflexivity|].
  apply (utf8_encode_cons c s [c] s); [| |exact IH].
  - unfold scalar. apply orb_true_iff. left. apply N.ltb_lt. lia.
  - unfold utf8_bytes. apply N.ltb_lt in Hc. now rewrite Hc.
Qed.

Lemma utf8_bytes_length (c : cp) : (1 <= length (utf8_bytes c))%nat.
Proof.
  unfold utf8_bytes.
  destruct (c <? 128); [|destruct (c <? 2048); [|destruct (c <? 65536)]];
    cbn [length]; lia.
Qed.

Lemma utf8_encode_length (s : str) (bytes : list N) :
  utf8_encode s = Some bytes -> (length s <= length bytes)%nat.
Proof.
  revert bytes; induction s as [|c s IH]; intros bytes H.
  - injection H as <-. reflexivity.
  - cbn [utf8_encode] in H. unfold utf8_encode_cp in H.
    destruct (scalar c); [|discriminate H].
    destruct (utf8_encode s) as [rest|]; [|discriminate H].
    injection H as <-. rewrite length_app. cbn [length].
    pose proof (utf8_bytes_length c). specialize (IH rest eq_refl). lia.
Qed.

Lemma included_count (l : list path) :
  length (included l) = length (filter has_content l).
Proof.
  destruct (included_names l) as [P _].
  apply Permutation_length in P. now rewrite !length_map in P.
Qed.

(** C9, as stated, fails: for a README that holds the single character
    U+00E9 the summary reports 354, the number of characters of the
    document, while the written file is 355 bytes long. *)
Lemma size_is_not_bytes :
  exists doc bytes,
    output_file (snd (main ucd_ascii accent_world)) = OutFile doc /\
    nth 2 (stdout (snd (main ucd_ascii accent_world))) []
      = lit "Total size: 354 characters" /\
    length doc = 354%nat /\
    utf8_encode doc = Some bytes /\
    length bytes = 355%nat.
Proof.
  eexists. eexists. split; [vm_compute; reflexivity|].
  split; [vm_compute; reflexivity|].
  split; [vm_compute; reflexivity|].
  split; vm_compute; reflexivity.
Qed.

(** C9 (amended): after writing the output file (names and READMEs
    being valid Unicode text) the console holds three more lines: the
    output path, the number of projects (the directories whose README
    has content) and the size of the document counted in characters
    (code points), grouped by thousands; the printed size reads back as
    exactly that count.  It is never more than the size of the written
    file in bytes, and it is that size when the document is all
    ASCII. *)
Theorem summary_reports_characters
  (U : UnicodeData) (w : world) (l : list path) :
  scalar_tables U -> encodable (utc_date w) = true ->
  forallb valid_unicode l = true ->
  project_dir w = Some l -> Forall readable l ->
  output_file w <> OutBlocked ->
  Exists (fun d => has_content d = true) l ->
  exists doc bytes,
    output_file (snd (main U w)) = OutFile doc /\
    utf8_encode doc = Some bytes /\
    stdout (snd (main U w))
    = stdout w ++
        [lit "Portfolio generated: docs/PORTFOLIO.md";
         lit "Total projects: "
           ++ decimal (N.of_nat (length (filter has_content l)));
         lit "Total size: " ++ format_commas (N.of_nat (length doc))
           ++ lit " characters"] /\
    parse_decimal (strip_commas (format_commas (N.of_nat (length doc))))
      = Some (N.of_nat (length doc)) /\
    (length doc <= length bytes)%nat /\
    (is_ascii doc -> length bytes = length doc).
Proof.
  intros HU Hd V Hl F Ho E.
  rewrite (main_writes U w l HU Hd V Hl F Ho (included_nonempty l E)).
  destruct (utf8_encode_some _
              (build_portfolio_encodable U (utc_date w) (included l) HU Hd
                 (included_valid l V))) as [bytes Hb].
  exists (build_portfolio U (utc_date w) (included l)), bytes.
  unfold after_write. cbn [snd output_file stdout with_stdout with_output].
  rewrite included_count. repeat split.
  - exact Hb.
  - apply read_back_size.
  - now apply utf8_encode_length.
  - intros A. rewrite (utf8_encode_ascii _ A) in Hb. now injection Hb as <-.
Qed.

Lemma summary_reports_characters_witness :
  exists doc bytes,
    output_file (snd (main ucd_ascii accent_world)) = OutFile doc /\
    utf8_encode doc = Some bytes /\
    stdout (snd (main ucd_ascii accent_world))
    = stdout accent_world ++
        [lit "Portfolio generated: docs/PORTFOLIO.md";
         lit "Total projects: "
           ++ decimal (N.of_nat (length (filter has_content accent_listing)));
         lit "Total size: " ++ format_commas (N.of_nat (length doc))
           ++ lit " characters"] /\
    parse_decimal (strip_commas (format_commas (N.of_nat (length doc))))
      = Some (N.of_nat (length doc)) /\
    (length doc <= length bytes)%nat /\
    (is_ascii doc -> length bytes = length doc).
Proof.
  apply (summary_reports_characters ucd_ascii accent_world accent_listing).
  - exact ucd_ascii_scalar.
  - reflexivity.
  - reflexivity.
  - reflexivity.
  - all_readable.
  - discriminate.
  - apply Exists_cons_hd. reflexivity.
Defined.

(** ** Empty READMEs *)

Lemma collect_projects_gather (dirs : list path) (acc : list project) (w : world) :
  collect_projects dirs acc w = (gather dirs acc, w).
Proof.
  revert acc; induction dirs as [|d dirs IH]; intros acc; [reflexivity|].
  cbn [collect_projects gather]. unfold bind at 1, read_readme.
  destruct (readme_of d) as [|[|c s]|e]; simpl; try apply IH. reflexivity.
Qed.

(** What [main] does in any world whose root can be listed. *)
Lemma main_outcome (U : UnicodeData) (w : world) (l : list path) :
  project_dir w = Some l ->
  main U w = finish U w (gather (sorted name (filter is_dir l)) []).
Proof.
  intros Hl. unfold main, get_project_dirs, iterdir, bind at 1 2.
  rewrite Hl. unfold ret at 1. unfold bind at 1.
  rewrite collect_projects_gather. unfold finish.
  destruct (gather _ _) as [[|p ps]|e]; try reflexivity.
  apply main_write_branch.
Qed.

(** The listing is not looked at again once the projects are
    collected. *)
Lemma outcome_finish_listing
  (U : UnicodeData) (w : world) (a b : option (list path))
  (g : result (list project)) :
  outcome (finish U (with_listing a w) g)
  = outcome (finish U (with_listing b w) g).
Proof.
  unfold finish, write_branch, outcome.
  destruct g as [[|p ps]|e]; try reflexivity.
  cbn [output_file utc_date with_listing].
  destruct (output_file w); try reflexivity;
    destruct (encodable (build_portfolio U (utc_date w) (p :: ps)));
    reflexivity.
Qed.

Lemma gather_contributes (dirs : list path) (acc : list project) :
  gather dirs acc = gather (filter contributes dirs) acc.
Proof.
  revert acc; induction dirs as [|d dirs IH]; intros acc; [reflexivity|].
  cbn [gather filter]. unfold contributes at 1.
  destruct (readme_of d) as [|[|c s]|e] eqn:E; cbn [gather]; try apply IH;
    rewrite E; [apply IH|reflexivity].
Qed.

Section FilterSorted.
Context {A : Type}.
Variable key : A -> str.
Variable f : A -> bool.

Lemma insert_sorted_first (x : A) (m : list A) :
  Forall (fun z => str_le (key x) (key z)) m ->
  insert_sorted key x m = x :: m.
Proof.
  intros F. destruct F as [|z m Hz F]; [reflexivity|].
  cbn [insert_sorted]. unfold str_le in Hz. now rewrite Hz.
Qed.

Lemma filter_insert_dropped (x : A) (m : list A) :
  f x = false -> filter f (insert_sorted key x m) = filter f m.
Proof.
  intros Hx. induction m as [|z m IH]; cbn [insert_sorted filter].
  - now rewrite Hx.
  - destruct (str_ltb (key z) (key x)); cbn [filter].
    + now rewrite IH.
    + now rewrite Hx.
Qed.

Lemma filter_insert_kept (x : A) (m : list A) :
  f x = true ->
  StronglySorted (fun a b => str_le (key a) (key b)) m ->
  filter f (insert_sorted key x m) = insert_sorted key x (filter f m).
Proof.
  intros Hx S. induction S as [|z m S IH Fz]; cbn [insert_sorted filter].
  - now rewrite Hx.
  - destruct (str_ltb (key z) (key x)) eqn:E; cbn [filter].
    + destruct (f z); [|exact IH].
      cbn [insert_sorted]. now rewrite E, IH.
    + rewrite Hx. symmetry.
      change (if f z then z :: filter f m else filter f m)
        with (filter f (z :: m)).
      apply insert_sorted_first.
      assert (G : Forall (fun y => str_le (key x) (key y)) (z :: m)).
      { constructor; [exact E|].
        eapply Forall_impl; [|exact Fz].
        intros y Hy. eapply str_le_trans; [exact E|exact Hy]. }
      rewrite Forall_forall in *. intros y Hy. apply G.
      now apply filter_In in Hy.
Qed.

(** Sorting and leaving entries out can be done in either order. *)
Lemma filter_sorted (l : list A) :
  filter f (sorted key l) = sorted key (filter f l).
Proof.
  induction l as [|x l IH]; [reflexivity|].
  change (sorted key (x :: l)) with (insert_sorted key x (sorted key l)).
  cbn [filter]. destruct (f x) eqn:Hx.
  - change (sorted key (x :: filter f l))
      with (insert_sorted key x (sorted key (filter f l))).
    rewrite <- IH. apply filter_insert_kept; [exact Hx|apply sorted_ordered].
  - rewrite <- IH. now apply filter_insert_dropped.
Qed.
End FilterSorted.

(** The directories that [main] visits, without those that add
    nothing. *)
Lemma visited_contributing (l : list path) (acc : list project) :
  gather (sorted name (filter is_dir l)) acc
  = gather (sorted name (filter contributes (filter is_dir l))) acc.
Proof.
  now rewrite gather_contributes, filter_sorted.
Qed.

Lemma contributing_without (l1 l2 : list path) (d : path) :
  contributes d = false ->
  filter contributes (filter is_dir (l1 ++ d :: l2))
  = filter contributes (filter is_dir (l1 ++ l2)).
Proof.
  intros H. rewrite !filter_app. cbn [filter].
  destruct (is_dir d); [|reflexivity]. cbn [filter]. now rewrite H.
Qed.

Lemma main_without (U : UnicodeData) (w : world) (l1 l2 : list path) (d : path) :
  contributes d = false ->
  outcome (main U (with_listing (Some (l1 ++ d :: l2)) w))
  = outcome (main U (with_listing (Some (l1 ++ l2)) w)).
Proof.
  intros H.
  rewrite (main_outcome U (with_listing (Some (l1 ++ d :: l2)) w) _ eq_refl).
  rewrite (main_outcome U (with_listing (Some (l1 ++ l2)) w) _ eq_refl).
  rewrite (visited_contributing (l1 ++ d :: l2)).
  rewrite (visited_contributing (l1 ++ l2)).
  rewrite (contributing_without l1 l2 d H).
  apply outcome_finish_listing.
Qed.

Lemma gather_ok (dirs : list path) (acc ps : list project) :
  gather dirs acc = Ok ps -> ps = acc ++ flat_map project_of dirs.
Proof.
  revert acc; induction dirs as [|d dirs IH]; intros acc; cbn [gather flat_map].
  - intros [= <-]. now rewrite app_nil_r.
  - unfold project_of at 1.
    destruct (readme_of d) as [|[|c s]|e]; intros H; try discriminate H;
      apply IH in H; subst ps; cbn [app]; try reflexivity.
    now rewrite <- app_assoc.
Qed.

(** C10: a directory whose README.md exists but is empty is left out of
    the output exactly as if its README.md were absent, and indeed as if
    the directory were not there at all: whatever else the root holds,
    the three runs end the same way, print the same lines and leave the
    same output file, so the directory has no entry in the table of
    contents and no section.  In the run with the empty file, every
    project that the first loop of [main] collects -- the projects that
    get an entry and a section -- has a non-empty README and comes from
    one of the other directories. *)
Theorem empty_readme_is_skipped
  (U : UnicodeData) (w : world) (l1 l2 : list path) (n : str) :
  let blank := l1 ++ {| name := n; on_disk := Dir (ReadmeText []) |} :: l2 in
  let bare := l1 ++ {| name := n; on_disk := Dir NoReadme |} :: l2 in
  let gone := l1 ++ l2 in
  outcome (main U (with_listing (Some blank) w))
    = outcome (main U (with_listing (Some bare) w)) /\
  outcome (main U (with_listing (Some blank) w))
    = outcome (main U (with_listing (Some gone) w)) /\
  (forall ps,
     fst ((dirs <- get_project_dirs ;; collect_projects dirs [])
            (with_listing (Some blank) w)) = Ok ps ->
     forall p, In p ps ->
       snd p <> [] /\
       exists d, In d gone /\ name d = fst p /\
                 on_disk d = Dir (ReadmeText (snd p))).
Proof.
  intros blank bare gone. split; [|split].
  - unfold blank, bare. now rewrite !main_without.
  - unfold blank, gone. now rewrite main_without.
  - intros ps H p Hp.
    unfold get_project_dirs, iterdir, bind, ret in H.
    cbn [project_dir with_listing] in H.
    rewrite collect_projects_gather in H. cbn [fst] in H.
    rewrite (visited_contributing blank) in H. unfold blank in H.
    rewrite (contributing_without l1 l2
               {| name := n; on_disk := Dir (ReadmeText []) |} eq_refl) in H.
    rewrite <- (visited_contributing (l1 ++ l2)) in H.
    apply gather_ok in H. cbn [app] in H. subst ps.
    fold (included (l1 ++ l2)) in Hp.
    apply included_from_listing in Hp as (d & Hd & Hs & Hn & Hne).
    split; [exact Hne|]. exists d. now repeat split.
Qed.

Lemma empty_readme_is_skipped_witness :
  outcome (main ucd_ascii
             (with_listing
                (Some ([ {| name := lit "beta";
                            on_disk := Dir (ReadmeText (lit "x")) |} ]
                         ++ {| name := lit "alpha";
                               on_disk := Dir (ReadmeText []) |} :: []))
                alpha_beta_world))
  = outcome (main ucd_ascii
               (with_listing
                  (Some ([ {| name := lit "beta";
                              on_disk := Dir (ReadmeText (lit "x")) |} ]
                           ++ []))
                  alpha_beta_world)) /\
  (snd (lit "beta", lit "x") <> [] /\
   exists d,
     In d ([ {| name := lit "beta"; on_disk := Dir (ReadmeText (lit "x")) |} ]
             ++ []) /\
     name d = fst (lit "beta", lit "x") /\
     on_disk d = Dir (ReadmeText (snd (lit "beta", lit "x")))).
Proof.
  destruct (empty_readme_is_skipped ucd_ascii alpha_beta_world
              [ {| name := lit "beta"; on_disk := Dir (ReadmeText (lit "x")) |} ]
              [] (lit "alpha")) as (_ & H2 & H3).
  split; [exact H2|].
  apply (H3 [(lit "beta", lit "x")] eq_refl). now left.
Defined.

(** ** ASCII names under any table *)

Section AsciiNames.
Variable U : UnicodeData.
Hypothesis U_exact : ascii_exact U.

Lemma ascii_case_bounds (c : cp) :
  c < 128 -> ascii_to_lower c < 128 /\ ascii_to_upper c < 128.
Proof.
  unfold ascii_to_lower, ascii_to_upper, is_ascii_upper, is_ascii_lower.
  intros H.
  destruct (N.leb_spec 65 c), (N.leb_spec c 90), (N.leb_spec 97 c),
    (N.leb_spec c 122); simpl; lia.
Qed.

Lemma lower_ucs4_ascii (before after : str) (c : cp) :
  c < 128 -> lower_ucs4 U before c after = [ascii_to_lower c].
Proof.
  intros Hc. unfold lower_ucs4.
  destruct (N.eqb_spec c capital_sigma) as [E|_].
  - unfold capital_sigma in E. lia.
  - now destruct (U_exact c Hc) as (-> & _).
Qed.

Lemma do_title_ascii (before before' : str) (b : bool) (s : str) :
  is_ascii s ->
  do_title U before b s = do_title ucd_ascii before' b s /\
  is_ascii (do_title U before b s).
Proof.
  intros F; revert before before' b;
    induction F as [|c s Hc F IH]; intros before before' b.
  - split; [reflexivity|constructor].
  - cbn [do_title].
    destruct (IH (c :: before) (c :: before') (ucd_cased U c)) as [E A].
    destruct (U_exact c Hc) as (_ & Ht & Hcased & _).
    rewrite (lower_ucs4_ascii before s c Hc), Ht.
    destruct (ascii_case_bounds c Hc) as [Bl Bu].
    split.
    + rewrite E, Hcased. unfold lower_ucs4.
      destruct (N.eqb_spec c capital_sigma) as [Es|_];
        [unfold capital_sigma in Es; lia|].
      reflexivity.
    + destruct b; constructor; assumption.
Qed.

Lemma cut_first_ascii (sep : cp) (s : str) :
  is_ascii s ->
  is_ascii (fst (cut_first sep s)) /\
  (forall r, snd (cut_first sep s) = Some r -> is_ascii r).
Proof.
  induction 1 as [|c s Hc F IH]; simpl.
  - split; [constructor|discriminate].
  - destruct (c =? sep); simpl.
    + split; [constructor|]. now intros r [= <-].
    + destruct (cut_first sep s) as [a o]; simpl in *.
      destruct IH as [IH1 IH2]. split; [now constructor|exact IH2].
Qed.

Lemma isdigit_ascii (s : str) :
  is_ascii s -> isdigit U s = isdigit ucd_ascii s.
Proof.
  intros F. unfold isdigit. destruct s as [|c s]; [reflexivity|].
  induction F as [|d t Hd F IH]; [reflexivity|].
  cbn [forallb]. rewrite IH.
  now destruct (U_exact d Hd) as (_ & _ & _ & ->).
Qed.

(** On an ASCII name every table that is exact on ASCII gives the title
    and the anchor that [ucd_ascii] gives. *)
Lemma toc_title_ascii (name : str) :
  is_ascii name -> toc_title U name = toc_title ucd_ascii name.
Proof.
  intros F. unfold toc_title, py_title.
  assert (Fs : is_ascii (replace_char hyphen space name)).
  { unfold replace_char, is_ascii in *. apply Forall_map.
    eapply Forall_impl; [|exact F]. intros c Hc. simpl.
    destruct (c =? hyphen); [unfold space; lia|exact Hc]. }
  destruct (do_title_ascii [] [] false _ Fs) as [E A].
  rewrite <- E.
  set (t := do_title U [] false (replace_char hyphen space name)) in *.
  unfold split_once.
  destruct (cut_first_ascii space t A) as [A1 A2].
  destruct (cut_first space t) as [a [b|]]; simpl in *;
    now rewrite (isdigit_ascii a A1).
Qed.

Lemma toc_anchor_ascii (name : str) :
  is_ascii name -> toc_anchor U name = toc_anchor ucd_ascii name.
Proof.
  intros F. unfold toc_anchor, py_lower.
  rewrite (do_lower_ascii U [] name U_exact F).
  now rewrite (do_lower_ascii ucd_ascii [] name ucd_ascii_exact F).
Qed.
End AsciiNames.

(** Whatever the table of the runtime, '01-k8s-app' is titled
    'K8S App' and '01-proxy' is titled 'Proxy'. *)
Example titles_under_any_table (U : UnicodeData) :
  ascii_exact U ->
  toc_title U (lit "01-k8s-app") = lit "K8S App" /\
  toc_title U (lit "01-proxy") = lit "Proxy" /\
  toc_title U (lit "my-API") = lit "My Api".
Proof.
  intros HU. repeat split; rewrite (toc_title_ascii U HU);
    try reflexivity; repeat constructor.
Qed.

(** ** The scenario of the specification *)

Example scenario_run :
  fst (main ucd_ascii scenario_world) = Ok tt /\
  run_lists ucd_ascii scenario_world [lit "01-proxy"; lit "02-scanner"] /\
  toc_listing ucd_ascii [lit "01-proxy"; lit "02-scanner"]
  = lit "## Table of Contents" ++ [nl; nl]
      ++ lit "1. [Proxy](#01-proxy)" ++ [nl]
      ++ lit "2. [Scanner](#02-scanner)" ++ [nl] /\
  stdout (snd (main ucd_ascii scenario_world))
  = [lit "Portfolio generated: docs/PORTFOLIO.md";
     lit "Total projects: 2";
     lit "Total size: 458 characters"].
Proof.
  split; [reflexivity|]. split; [|split; reflexivity].
  eexists. vm_compute. reflexivity.
Qed.

Example thousands : format_commas 1234567 = lit "1,234,567".
Proof.
  reflexivity.
Qed.

(* ================================================================== *)
(** * Further properties of the script *)

(** ** The directory scanner *)

(** X1: when the root can be listed, [get_project_dirs] returns every
    entry that is a directory, each once, and no other entry, in
    ascending order of the names, and leaves the world as it was; when
    the root cannot be listed it raises and leaves the world as it
    was. *)
Theorem get_project_dirs_directories (w : world) :
  (forall l, project_dir w = Some l ->
     exists dirs,
       get_project_dirs w = (Ok dirs, w) /\
       Permutation dirs (filter is_dir l) /\
       StronglySorted (fun a b => str_le (name a) (name b)) dirs /\
       (forall d, In d dirs <-> In d l /\ is_dir d = true)) /\
  (project_dir w = None -> get_project_dirs w = (Raise OSError, w)).
Proof.
  split.
  - intros l Hl. exists (sorted name (filter is_dir l)).
    split; [|split; [|split]].
    + unfold get_project_dirs, iterdir, bind, ret. now rewrite Hl.
    + apply sorted_perm.
    + apply sorted_ordered.
    + intros d. rewrite <- filter_In. split; intros H.
      * eapply Permutation_in; [apply sorted_perm|exact H].
      * eapply Permutation_in; [symmetry; apply sorted_perm|exact H].
  - intros Hl. unfold get_project_dirs, iterdir, bind. now rewrite Hl.
Qed.

Lemma get_project_dirs_directories_witness :
  exists dirs,
    get_project_dirs mixed_world = (Ok dirs, mixed_world) /\
    Permutation dirs (filter is_dir mixed_listing) /\
    StronglySorted (fun a b => str_le (name a) (name b)) dirs /\
    (forall d, In d dirs <-> In d mixed_listing /\ is_dir d = true).
Proof.
  apply (get_project_dirs_directories mixed_world). reflexivity.
Defined.

(** X2: the result of [get_project_dirs] does not depend on the order in
    which the operating system lists the root: two listings of the same
    entries, with names that are pairwise distinct, give the same list
    of directories. *)
Theorem get_project_dirs_any_order (w w' : world) (l l' : list path) :
  project_dir w = Some l -> project_dir w' = Some l' ->
  Permutation l l' -> NoDup (map name l) ->
  fst (get_project_dirs w) = fst (get_project_dirs w').
Proof.
  intros Hl Hl' P ND. unfold get_project_dirs, iterdir, bind, ret.
  rewrite Hl, Hl'. cbn [fst]. f_equal.
  apply sorted_perm_invariant.
  - now apply filter_perm.
  - now apply NoDup_map_filter.
Qed.

Lemma get_project_dirs_any_order_witness :
  fst (get_project_dirs mixed_world)
  = fst (get_project_dirs (with_listing (Some (rev mixed_listing)) mixed_world)).
Proof.
  apply (get_project_dirs_any_order mixed_world
           (with_listing (Some (rev mixed_listing)) mixed_world)
           mixed_listing (rev mixed_listing)).
  - reflexivity.
  - reflexivity.
  - apply Permutation_rev.
  - names_distinct.
Defined.

(** ** How a run ends *)













(** The run that the lone surrogate spoils: UnicodeEncodeError, nothing
    printed, and the output file, which held a text, left empty. *)
Example surrogate_name_run :
  main ucd_ascii surrogate_world
  = (Raise UnicodeEncodeError, with_output (OutFile []) surrogate_world).
Proof.
  reflexivity.
Qed.

(** ** Table of contents and body *)

(** X5: in the document that [main] writes (names and READMEs being
    valid Unicode text), the table of contents and the body go together:
    there are as many entry lines as sections, and the k-th line and the
    k-th section are those of one and the same directory of the root --
    the line carries its number, title and anchor, the section its name
    in the marker and its README. *)
Theorem toc_matches_body (U : UnicodeData) (w : world) (l : list path) :
  scalar_tables U -> encodable (utc_date w) = true ->
  forallb valid_unicode l = true ->
  project_dir w = Some l -> Forall readable l ->
  output_file w <> OutBlocked ->
  Exists (fun d => has_content d = true) l ->
  exists lines sections,
    output_file (snd (main U w))
    = OutFile (front_matter (utc_date w) (toc_heading ++ concat lines)
                 ++ concat sections) /\
    length lines = length sections /\
    forall k line, nth_error lines k = Some line ->
      exists d c,
        In d l /\ on_disk d = Dir (ReadmeText c) /\
        line = toc_line U (N.of_nat (S k)) (name d) /\
        nth_error sections k
        = Some ([nl; nl] ++ lit "---" ++ [nl; nl]
                  ++ lit "<!-- PROJECT: " ++ name d ++ lit " -->"
                  ++ [nl; nl] ++ c ++ [nl]).
Proof.
  intros HU Hdate V Hl F Ho E.
  rewrite (main_writes U w l HU Hdate V Hl F Ho (included_nonempty l E)).
  exists (toc_lines U 1 (map fst (included l))).
  exists (map project_section (included l)).
  split; [|split].
  - unfold after_write. cbn [snd output_file with_stdout with_output].
    now rewrite build_portfolio_concat, generate_toc_lines.
  - now rewrite toc_lines_length, !length_map.
  - intros k line Hk.
    assert (Hlt : (k < length (included l))%nat).
    { assert (Hs : nth_error (toc_lines U 1 (map fst (included l))) k <> None)
        by congruence.
      apply nth_error_Some in Hs.
      now rewrite toc_lines_length, length_map in Hs. }
    destruct (nth_error (included l) k) as [p|] eqn:Hp;
      [|apply nth_error_None in Hp; lia].
    pose proof (nth_error_In _ _ Hp) as Hin.
    apply included_from in Hin as (d & Hd & Hs & Hn & _).
    exists d, (snd p). split; [exact Hd|]. split; [exact Hs|]. split.
    + assert (Hm : nth_error (map fst (included l)) k = Some (name d))
        by (rewrite nth_error_map, Hp; simpl; now rewrite Hn).
      rewrite (toc_lines_nth U _ 1 k _ Hm) in Hk.
      replace (1 + N.of_nat k) with (N.of_nat (S k)) in Hk by lia.
      congruence.
    + rewrite nth_error_map, Hp. cbn [option_map]. unfold project_section.
      now rewrite Hn.
Qed.

Lemma toc_matches_body_witness :
  exists lines sections,
    output_file (snd (main ucd_ascii scenario_world))
    = OutFile (front_matter (utc_date scenario_world)
                 (toc_heading ++ concat lines)
                 ++ concat sections) /\
    length lines = length sections /\
    forall k line, nth_error lines k = Some line ->
      exists d c,
        In d scenario_listing /\ on_disk d = Dir (ReadmeText c) /\
        line = toc_line ucd_ascii (N.of_nat (S k)) (name d) /\
        nth_error sections k
        = Some ([nl; nl] ++ lit "---" ++ [nl; nl]
                  ++ lit "<!-- PROJECT: " ++ name d ++ lit " -->"
                  ++ [nl; nl] ++ c ++ [nl]).
Proof.
  apply (toc_matches_body ucd_ascii scenario_world scenario_listing).
  - exact ucd_ascii_scalar.
  - reflexivity.
  - reflexivity.
  - reflexivity.
  - all_readable.
  - discriminate.
  - apply Exists_cons_hd. reflexivity.
Defined.

(** X6: the table of contents is made from the directory names alone:
    two lists of projects with the same names in the same order get the
    same table of contents, whatever their READMEs hold. *)
Theorem generate_toc_names_only (U : UnicodeData) (ps qs : list project) :
  map fst ps = map fst qs -> generate_toc U ps = generate_toc U qs.
Proof.
  intros H. now rewrite !generate_toc_lines, H.
Qed.

Lemma generate_toc_names_only_witness :
  generate_toc ucd_ascii [(lit "01-proxy", lit "one")]
  = generate_toc ucd_ascii [(lit "01-proxy", lit "another")].
Proof.
  apply (generate_toc_names_only ucd_ascii). reflexivity.
Defined.

Lemma toc_lines_app (U : UnicodeData) (i : N) (a b : list str) :
  toc_lines U i (a ++ b)
  = toc_lines U i a ++ toc_lines U (i + N.of_nat (length a)) b.
Proof.
  revert i; induction a as [|n a IH]; intros i.
  - cbn [app toc_lines length]. now rewrite N.add_0_r.
  - cbn [app toc_lines length]. rewrite IH. do 3 f_equal. lia.
Qed.

(** X7: with no project the table of contents is its bare heading, and
    projects added at the end only add lines at the end: the lines that
    were there keep their text and their numbers, and the new ones are
    numbered on from the count of the old ones. *)
Theorem generate_toc_app (U : UnicodeData) (ps qs : list project) :
  generate_toc U [] = lit "## Table of Contents" ++ [nl; nl] /\
  generate_toc U (ps ++ qs)
  = generate_toc U ps
      ++ concat (map (fun e => toc_line U (N.of_nat (fst e)) (fst (snd e)))
                   (combine (seq (S (length ps)) (length qs)) qs)).
Proof.
  split; [reflexivity|].
  rewrite !generate_toc_lines. unfold toc_listing.
  rewrite map_app, toc_lines_app, concat_app, <- app_assoc. do 2 f_equal.
  rewrite length_map.
  replace (1 + N.of_nat (length ps)) with (N.of_nat (S (length ps))) by lia.
  rewrite toc_lines_enumerate, length_map.
  f_equal. generalize (S (length ps)) as a.
  induction qs as [|q qs IH]; intros a; [reflexivity|].
  cbn [map length seq combine fst snd]. f_equal. apply IH.
Qed.

(** ** Titles and anchors of ASCII names *)

Lemma digit_facts (c : cp) :
  is_ascii_digit c = true ->
  c < 128 /\ c <> hyphen /\ c <> space /\
  ascii_to_upper c = c /\ ascii_to_lower c = c /\ is_ascii_letter c = false.
Proof.
  unfold is_ascii_digit, ascii_to_upper, ascii_to_lower, is_ascii_letter,
    is_ascii_upper, is_ascii_lower, hyphen, space.
  intros H. apply andb_prop in H as [H1 H2].
  apply N.leb_le in H1. apply N.leb_le in H2.
  destruct (N.leb_spec 65 c), (N.leb_spec c 90), (N.leb_spec 97 c),
    (N.leb_spec c 122); simpl; repeat split; lia.
Qed.

Lemma digits_ascii (d : str) :
  Forall (fun c => is_ascii_digit c = true) d -> is_ascii d.
Proof.
  apply Forall_impl. intros c H. now apply digit_facts.
Qed.

Lemma do_title_any_context (before before' : str) (b : bool) (s : str) :
  is_ascii s ->
  do_title ucd_ascii before b s = do_title ucd_ascii before' b s.
Proof.
  intros F. now apply (do_title_ascii ucd_ascii ucd_ascii_exact).
Qed.

Lemma do_title_uncased_head (b : bool) (c : cp) (s : str) :
  c < 128 -> ascii_to_upper c = c -> ascii_to_lower c = c ->
  is_ascii_letter c = false -> is_ascii s ->
  do_title ucd_ascii [] b (c :: s) = c :: do_title ucd_ascii [] false s.
Proof.
  intros Hc Hu Hl Hn F. cbn [do_title ucd_title ucd_cased ucd_ascii].
  rewrite Hn, (do_title_any_context [c] [] false s F).
  rewrite (lower_ucs4_ascii ucd_ascii ucd_ascii_exact [] s c Hc), Hu, Hl.
  now destruct b.
Qed.

Lemma do_title_digits (b : bool) (d x : str) :
  Forall (fun c => is_ascii_digit c = true) d -> is_ascii x -> d <> [] ->
  do_title ucd_ascii [] b (d ++ x) = d ++ do_title ucd_ascii [] false x.
Proof.
  intros Fd Fx. revert b.
  induction Fd as [|c d Hc Fd IH]; intros b Hne; [congruence|].
  destruct (digit_facts c Hc) as (H1 & _ & _ & H2 & H3 & H4).
  cbn [app].
  rewrite (do_title_uncased_head b c (d ++ x) H1 H2 H3 H4).
  - f_equal. destruct d as [|c' d]; [reflexivity|].
    apply IH. discriminate.
  - apply Forall_app. split; [now apply digits_ascii|exact Fx].
Qed.

Lemma replace_hyphen_ascii (s : str) :
  is_ascii s -> is_ascii (replace_char hyphen space s).
Proof.
  intros F. unfold replace_char, is_ascii in *. apply Forall_map.
  eapply Forall_impl; [|exact F]. intros c Hc. cbn beta.
  destruct (c =? hyphen); [unfold space; lia|exact Hc].
Qed.

Lemma replace_hyphen_digits (d : str) :
  Forall (fun c => is_ascii_digit c = true) d ->
  replace_char hyphen space d = d.
Proof.
  induction 1 as [|c d Hc F IH]; [reflexivity|].
  unfold replace_char in *. cbn [map]. rewrite IH.
  destruct (digit_facts c Hc) as (_ & Hh & _).
  apply N.eqb_neq in Hh. now rewrite Hh.
Qed.

Lemma digits_no_space (d : str) :
  Forall (fun c => is_ascii_digit c = true) d -> ~ In space d.
Proof.
  intros F H. rewrite Forall_forall in F.
  destruct (digit_facts space (F _ H)) as (_ & _ & Hs & _). congruence.
Qed.

Lemma isdigit_digits (d : str) :
  Forall (fun c => is_ascii_digit c = true) d -> d <> [] ->
  isdigit ucd_ascii d = true.
Proof.
  intros F Hne. unfold isdigit. destruct d as [|c d]; [congruence|].
  apply forallb_forall. now apply Forall_forall.
Qed.

Lemma title_after_number (U : UnicodeData) (d r : str) :
  ascii_exact U ->
  d <> [] -> Forall (fun c => is_ascii_digit c = true) d -> is_ascii r ->
  toc_title U (d ++ hyphen :: r) = py_title U (replace_char hyphen space r).
Proof.
  intros HU Hne Fd Hr.
  rewrite (toc_title_ascii U HU).
  2:{ apply Forall_app. split; [now apply digits_ascii|].
      constructor; [unfold hyphen; lia|exact Hr]. }
  pose proof (replace_hyphen_ascii r Hr) as Fr'.
  unfold toc_title, py_title, split_once.
  replace (replace_char hyphen space (d ++ hyphen :: r))
    with (d ++ space :: replace_char hyphen space r).
  2:{ unfold replace_char. rewrite map_app. cbn [map].
      change (hyphen =? hyphen) with true. cbn iota.
      fold (replace_char hyphen space d).
      now rewrite (replace_hyphen_digits d Fd). }
  rewrite (do_title_digits false d _ Fd); [|now constructor|exact Hne].
  rewrite (do_title_uncased_head false space _); try reflexivity;
    [|exact Fr'].
  rewrite (cut_first_some space d _ (digits_no_space d Fd)).
  cbn [nth length]. rewrite (isdigit_digits d Fd Hne). cbn.
  now destruct (do_title_ascii U HU [] [] false _ Fr') as [-> _].
Qed.

(** X8: for an ASCII directory name that is a non-empty run of digits, a
    hyphen and a remainder, the title is the title-cased remainder alone
    (its hyphens turned to spaces): the number and the hyphen are gone,
    and when nothing follows the hyphen the title is empty.  A name that
    is only digits keeps them as its title. *)
Theorem title_drops_numeric_prefix (U : UnicodeData) (d rest : str) :
  ascii_exact U ->
  d <> [] -> Forall (fun c => is_ascii_digit c = true) d -> is_ascii rest ->
  toc_title U (d ++ hyphen :: rest) = py_title U (replace_char hyphen space rest) /\
  toc_title U (d ++ [hyphen]) = [] /\
  toc_title U d = d.
Proof.
  intros HU Hne Fd Fr.
  split; [now apply title_after_number|]. split.
  - rewrite (title_after_number U d [] HU Hne Fd (Forall_nil _)). reflexivity.
  - rewrite (toc_title_ascii U HU d (digits_ascii d Fd)).
    unfold toc_title, py_title, split_once.
    rewrite (replace_hyphen_digits d Fd).
    pose proof (do_title_digits false d [] Fd (Forall_nil _) Hne) as T.
    cbn [do_title] in T. rewrite !app_nil_r in T. rewrite !T.
    rewrite (cut_first_none space d (digits_no_space d Fd)).
    cbn [nth length Nat.ltb Nat.leb]. now rewrite andb_false_r.
Qed.

Lemma title_drops_numeric_prefix_witness :
  toc_title ucd_ascii (lit "01" ++ hyphen :: lit "data-lake")
    = py_title ucd_ascii (replace_char hyphen space (lit "data-lake")) /\
  toc_title ucd_ascii (lit "01" ++ [hyphen]) = [] /\
  toc_title ucd_ascii (lit "01") = lit "01".
Proof.
  apply (title_drops_numeric_prefix ucd_ascii (lit "01") (lit "data-lake")).
  - exact ucd_ascii_exact.
  - discriminate.
  - repeat constructor.
  - repeat constructor.
Defined.

Lemma toc_anchor_chars (U : UnicodeData) (name : str) :
  ascii_exact U -> is_ascii name ->
  toc_anchor U name = map anchor_char name.
Proof.
  intros HU Ha. unfold toc_anchor, py_lower.
  rewrite (do_lower_ascii U [] name HU Ha). unfold replace_char.
  rewrite map_map. apply map_ext. intros c. unfold anchor_char.
  now rewrite ascii_to_lower_space.
Qed.

Lemma anchor_char_facts (c : cp) :
  c < 128 ->
  anchor_char c < 128 /\ anchor_clean (anchor_char c) /\
  anchor_char (anchor_char c) = anchor_char c /\
  (anchor_clean c -> anchor_char c = c).
Proof.
  unfold anchor_clean, anchor_char, ascii_to_lower, is_ascii_upper,
    space, hyphen.
  intros Hc.
  repeat match goal with
         | |- context [?a =? ?b] => destruct (N.eqb_spec a b)
         | |- context [?a <=? ?b] => destruct (N.leb_spec a b)
         end;
    cbn [andb] in *; repeat split; try lia;
    try (intros [H1 H2]; cbn [andb] in *; congruence || discriminate || lia).
Qed.

(** X9: the anchor of an ASCII directory name has the length of the
    name and holds neither a space nor a capital letter; a name that
    holds neither is its own anchor, and computing the anchor of an
    anchor changes nothing -- so a name and its anchor, when they
    differ, are two names with the same link target. *)
Theorem anchor_shape (U : UnicodeData) (name : str) :
  ascii_exact U -> is_ascii name ->
  length (toc_anchor U name) = length name /\
  Forall anchor_clean (toc_anchor U name) /\
  (Forall anchor_clean name -> toc_anchor U name = name) /\
  toc_anchor U (toc_anchor U name) = toc_anchor U name.
Proof.
  intros HU Ha.
  assert (A : is_ascii (map anchor_char name)).
  { apply Forall_map. eapply Forall_impl; [|exact Ha].
    intros c Hc. now apply anchor_char_facts. }
  rewrite (toc_anchor_chars U name HU Ha).
  rewrite (toc_anchor_chars U _ HU A).
  split; [apply length_map|]. split; [|split].
  - apply Forall_map. eapply Forall_impl; [|exact Ha].
    intros c Hc. now apply anchor_char_facts.
  - intros Hclean. rewrite <- (map_id name) at 2. apply map_ext_in.
    intros c Hc. unfold is_ascii in Ha. rewrite Forall_forall in Ha, Hclean.
    destruct (anchor_char_facts c (Ha c Hc)) as (_ & _ & _ & H).
    apply H, Hclean, Hc.
  - rewrite map_map. apply map_ext_in. intros c Hc.
    unfold is_ascii in Ha. rewrite Forall_forall in Ha.
    now destruct (anchor_char_facts c (Ha c Hc)) as (_ & _ & H & _).
Qed.

Lemma anchor_shape_witness :
  length (toc_anchor ucd_ascii (lit "My Dir")) = length (lit "My Dir") /\
  Forall anchor_clean (toc_anchor ucd_ascii (lit "My Dir")) /\
  (Forall anchor_clean (lit "My Dir") ->
   toc_anchor ucd_ascii (lit "My Dir") = lit "My Dir") /\
  toc_anchor ucd_ascii (toc_anchor ucd_ascii (lit "My Dir"))
    = toc_anchor ucd_ascii (lit "My Dir").
Proof.
  apply (anchor_shape ucd_ascii (lit "My Dir")).
  - exact ucd_ascii_exact.
  - repeat constructor.
Defined.

(** ** The collected projects *)

Lemma ordered_strictly {A} (key : A -> str) (l : list A) :
  StronglySorted (fun a b => str_le (key a) (key b)) l ->
  NoDup (map key l) ->
  StronglySorted (fun a b => str_lt (key a) (key b)) l.
Proof.
  induction 1 as [|x l S IH F]; intros ND; [constructor|].
  cbn [map] in ND. inversion ND as [|? ? Hx ND']; subst.
  constructor; [now apply IH|].
  rewrite Forall_forall in *. intros y Hy.
  pose proof (F y Hy) as Hle. unfold str_le in Hle. unfold str_lt.
  destruct (str_ltb (key x) (key y)) eqn:E; [reflexivity|].
  exfalso. apply Hx. rewrite (str_ltb_antisym _ _ E Hle). now apply in_map.
Qed.

(** X10: when the names under the root are pairwise distinct, the
    projects that the first loop of [main] collects have strictly
    ascending names -- so no two of them share a name -- and none of
    them has an empty README. *)
Theorem projects_strictly_ascending
  (w : world) (l : list path) (ps : list project) :
  project_dir w = Some l -> NoDup (map name l) ->
  fst ((dirs <- get_project_dirs ;; collect_projects dirs []) w) = Ok ps ->
  StronglySorted str_lt (map fst ps) /\
  NoDup (map fst ps) /\
  Forall (fun p => snd p <> []) ps.
Proof.
  intros Hl ND H.
  unfold get_project_dirs, iterdir, bind, ret in H. rewrite Hl in H.
  rewrite collect_projects_gather in H. cbn [fst] in H.
  apply gather_ok in H. cbn [app] in H. subst ps.
  set (dirs := sorted name (filter is_dir l)).
  assert (NDd : NoDup (map name dirs)).
  { eapply Permutation_NoDup;
      [apply Permutation_map; symmetry; apply sorted_perm|].
    now apply NoDup_map_filter. }
  rewrite (included_names_filter dirs). split; [|split].
  - apply map_ordered, filter_ordered, ordered_strictly; [|exact NDd].
    apply sorted_ordered.
  - now apply NoDup_map_filter.
  - apply Forall_forall. intros p Hp. apply in_flat_map in Hp as [d [_ Hp]].
    unfold project_of in Hp.
    destruct (readme_of d) as [|[|c s]|]; cbn in Hp; try contradiction.
    destruct Hp as [<-|[]]. discriminate.
Qed.

Lemma projects_strictly_ascending_witness :
  StronglySorted str_lt (map fst (included scenario_listing)) /\
  NoDup (map fst (included scenario_listing)) /\
  Forall (fun p => snd p <> []) (included scenario_listing).
Proof.
  apply (projects_strictly_ascending scenario_world scenario_listing).
  - reflexivity.
  - names_distinct.
  - reflexivity.
Defined.

(** ** The shape of a title *)

Lemma do_title_pointwise (before : str) (b : bool) (s : str) :
  is_ascii s ->
  Forall2 (fun c t => t = ascii_to_upper c \/ t = ascii_to_lower c)
    s (do_title ucd_ascii before b s).
Proof.
  intros F; revert before b; induction F as [|c s Hc F IH]; intros before b.
  - constructor.
  - cbn [do_title ucd_title ucd_ascii].
    rewrite (lower_ucs4_ascii ucd_ascii ucd_ascii_exact before s c Hc).
    destruct b; cbn [app]; constructor; auto.
Qed.

Lemma cut_first_split (sep : cp) (s a b : str) :
  cut_first sep s = (a, Some b) -> s = a ++ sep :: b.
Proof.
  revert a; induction s as [|c s IH]; intros a; cbn [cut_first];
    [discriminate|].
  destruct (N.eqb_spec c sep) as [->|_].
  - now intros [= <- <-].
  - destruct (cut_first sep s) as [a' o]. intros [= <- ->].
    cbn [app]. f_equal. now apply IH.
Qed.

Lemma case_keeps_off_hyphen (c : cp) :
  c <> hyphen -> ascii_to_upper c <> hyphen /\ ascii_to_lower c <> hyphen.
Proof.
  unfold ascii_to_upper, ascii_to_lower, is_ascii_upper, is_ascii_lower, hyphen.
  intros H.
  destruct (N.leb_spec 65 c), (N.leb_spec c 90), (N.leb_spec 97 c),
    (N.leb_spec c 122); cbn [andb]; split; lia.
Qed.

Lemma case_keeps_plain (s t : str) :
  Forall2 (fun c t => t = ascii_to_upper c \/ t = ascii_to_lower c) s t ->
  Forall (fun c => c < 128 /\ c <> hyphen) s ->
  Forall (fun c => c < 128 /\ c <> hyphen) t.
Proof.
  induction 1 as [|c t' s' ts Hct P IH]; intros Hn; [constructor|].
  inversion Hn as [|? ? [Hc1 Hc2] Hn']; subst.
  constructor; [|now apply IH].
  destruct (ascii_case_bounds c Hc1), (case_keeps_off_hyphen c Hc2).
  destruct Hct as [-> | ->]; split; assumption.
Qed.

(** X11: the title of an ASCII directory name is ASCII, holds no hyphen
    and is never longer than the name. *)
Theorem title_shape (U : UnicodeData) (name : str) :
  ascii_exact U -> is_ascii name ->
  is_ascii (toc_title U name) /\
  ~ In hyphen (toc_title U name) /\
  (length (toc_title U name) <= length name)%nat.
Proof.
  intros HU Ha. rewrite (toc_title_ascii U HU name Ha).
  pose proof (replace_hyphen_ascii name Ha) as Hs.
  pose proof (do_title_pointwise [] false _ Hs) as P.
  set (s := replace_char hyphen space name) in *.
  assert (T : Forall (fun t => t < 128 /\ t <> hyphen) (py_title ucd_ascii s)
              /\ length (py_title ucd_ascii s) = length name).
  { split.
    - assert (Hn : Forall (fun c => c < 128 /\ c <> hyphen) s).
      { unfold s, replace_char. apply Forall_map.
        eapply Forall_impl; [|exact Ha]. intros c Hc. cbn beta.
        destruct (N.eqb_spec c hyphen); unfold space, hyphen in *;
          split; lia || assumption. }
      exact (case_keeps_plain _ _ P Hn).
    - unfold py_title. rewrite <- (Forall2_length P). unfold s, replace_char.
      apply length_map. }
  destruct T as [T L].
  unfold toc_title, split_once. fold s.
  destruct (cut_first space (py_title ucd_ascii s)) as [a [b|]] eqn:E;
    cbn [nth length].
  - apply cut_first_split in E.
    assert (Tb : Forall (fun t => t < 128 /\ t <> hyphen) b).
    { rewrite E in T. apply Forall_app in T as [_ T].
      now inversion T. }
    assert (Lb : (length b <= length name)%nat).
    { rewrite <- L, E, length_app. cbn [length]. lia. }
    destruct (isdigit ucd_ascii a && Nat.ltb 1 2).
    + split; [|split]; [| |exact Lb].
      * eapply Forall_impl; [|exact Tb]. now intros t [H _].
      * intros H. rewrite Forall_forall in Tb. now destruct (Tb _ H).
    + split; [|split]; [| |now rewrite L].
      * eapply Forall_impl; [|exact T]. now intros t [H _].
      * intros H. rewrite Forall_forall in T. now destruct (T _ H).
  - destruct (isdigit ucd_ascii a && Nat.ltb 1 1).
    + split; [constructor|]. split; [intros []|cbn; lia].
    + split; [|split]; [| |now rewrite L].
      * eapply Forall_impl; [|exact T]. now intros t [H _].
      * intros H. rewrite Forall_forall in T. now destruct (T _ H).
Qed.

Lemma title_shape_witness :
  is_ascii (toc_title ucd_ascii (lit "01-k8s-app")) /\
  ~ In hyphen (toc_title ucd_ascii (lit "01-k8s-app")) /\
  (length (toc_title ucd_ascii (lit "01-k8s-app"))
   <= length (lit "01-k8s-app"))%nat.
Proof.
  apply (title_shape ucd_ascii (lit "01-k8s-app")).
  - exact ucd_ascii_exact.
  - repeat constructor.
Defined.

(** ** The thousands separator *)

Lemma group_short (l : str) :
  (length l <= 3)%nat -> group_thousands 0 l = l.
Proof.
  destruct l as [|a [|b [|c [|d l]]]]; cbn [length]; intros H;
    try reflexivity. lia.
Qed.

Lemma group_long (l : str) :
  (3 < length l)%nat -> In comma (group_thousands 0 l).
Proof.
  destruct l as [|a [|b [|c [|d l]]]]; cbn [length]; intros H; try lia.
  cbn [group_thousands]. right; right; right. now left.
Qed.

Lemma decimal_no_comma (n : N) : ~ In comma (decimal n).
Proof.
  intros H. pose proof (uint_str_digits (N.to_uint n)) as F.
  rewrite Forall_forall in F. specialize (F _ H). discriminate F.
Qed.

Lemma decimal_short (n : N) : n < 1000 -> (length (decimal n) <= 3)%nat.
Proof.
  intros H.
  assert (C : forallb (fun k => Nat.leb (length (decimal (N.of_nat k))) 3)
                (seq 0 1000) = true) by (vm_compute; reflexivity).
  rewrite forallb_forall in C.
  specialize (C (N.to_nat n)). rewrite N2Nat.id in C.
  apply Nat.leb_le, C, in_seq. lia.
Qed.

Lemma uint_str_nil (d : Decimal.uint) :
  length (uint_str d) = 0%nat -> d = Decimal.Nil.
Proof.
  destruct d; cbn [uint_str length]; intros H; try discriminate H.
  reflexivity.
Qed.

Ltac split_digit d := destruct d as [|d|d|d|d|d|d|d|d|d|d].

Lemma of_uint_short (d : Decimal.uint) :
  (length (uint_str d) <= 3)%nat -> N.of_uint d < 1000.
Proof.
  intros H.
  split_digit d; [reflexivity|..];
    (split_digit d; [reflexivity|..];
     (split_digit d; [reflexivity|..];
      (cbn [uint_str length] in H;
       assert (E : d = Decimal.Nil) by (apply uint_str_nil; lia);
       subst d; reflexivity))).
Qed.

Lemma decimal_long (n : N) : 1000 <= n -> (3 < length (decimal n))%nat.
Proof.
  intros H.
  destruct (Nat.le_gt_cases (length (decimal n)) 3) as [L|L]; [|exact L].
  apply of_uint_short in L. rewrite DecimalN.Unsigned.of_to in L. lia.
Qed.

(** X12: the size in the summary is printed without separator when it is
    below 1000, exactly as the plain numeral, and with at least one
    comma from 1000 on. *)
Theorem format_commas_threshold (n : N) :
  (n < 1000 -> format_commas n = decimal n /\ ~ In comma (format_commas n)) /\
  (1000 <= n -> In comma (format_commas n)).
Proof.
  split; intros H.
  - assert (E : format_commas n = decimal n).
    { unfold format_commas. rewrite group_short; [apply rev_involutive|].
      rewrite length_rev. now apply decimal_short. }
    split; [exact E|]. rewrite E. apply decimal_no_comma.
  - unfold format_commas. apply in_rev. rewrite rev_involutive.
    apply group_long. rewrite length_rev. now apply decimal_long.
Qed.

Lemma format_commas_threshold_witness :
  (format_commas 458 = decimal 458 /\ ~ In comma (format_commas 458)) /\
  In comma (format_commas 12345).
Proof.
  split.
  - apply (format_commas_threshold 458). reflexivity.
  - apply (format_commas_threshold 12345). discriminate.
Defined.

(** ** Anchor against title *)

Lemma py_title_ascii_length (U : UnicodeData) (s : str) :
  ascii_exact U -> is_ascii s ->
  is_ascii (py_title U s) /\ length (py_title U s) = length s.
Proof.
  intros HU Hs. unfold py_title.
  destruct (do_title_ascii U HU [] [] false s Hs) as [E A].
  split; [exact A|]. rewrite E.
  symmetry. exact (Forall2_length (do_title_pointwise [] false s Hs)).
Qed.

(** X13: for an ASCII directory name that is a non-empty run of digits,
    a hyphen and a remainder, the anchor keeps the number that the title
    drops: it is the digits, the hyphen and the anchor of the remainder.
    So the link target is not the anchor of the displayed title: the two
    differ. *)
Theorem anchor_keeps_numeric_prefix (U : UnicodeData) (d rest : str) :
  ascii_exact U ->
  d <> [] -> Forall (fun c => is_ascii_digit c = true) d -> is_ascii rest ->
  toc_anchor U (d ++ hyphen :: rest) = d ++ hyphen :: toc_anchor U rest /\
  toc_anchor U (d ++ hyphen :: rest)
    <> toc_anchor U (toc_title U (d ++ hyphen :: rest)).
Proof.
  intros HU Hne Fd Fr.
  assert (Fn : is_ascii (d ++ hyphen :: rest)).
  { apply Forall_app. split; [now apply digits_ascii|].
    constructor; [unfold hyphen; lia|exact Fr]. }
  assert (E : toc_anchor U (d ++ hyphen :: rest)
              = d ++ hyphen :: toc_anchor U rest).
  { rewrite (toc_anchor_chars U _ HU Fn), (toc_anchor_chars U _ HU Fr).
    rewrite map_app. cbn [map].
    change (anchor_char hyphen) with hyphen. f_equal.
    rewrite <- (map_id d) at 2. apply map_ext_in. intros c Hc.
    rewrite Forall_forall in Fd.
    destruct (digit_facts c (Fd c Hc)) as (_ & _ & Hs & _ & Hl & _).
    unfold anchor_char. apply N.eqb_neq in Hs. now rewrite Hs. }
  split; [exact E|].
  intros H. apply (f_equal (@length cp)) in H.
  rewrite (title_after_number U d rest HU Hne Fd Fr) in H.
  destruct (py_title_ascii_length U _ HU (replace_hyphen_ascii rest Fr))
    as [At Lt].
  rewrite (toc_anchor_chars U _ HU Fn), (toc_anchor_chars U _ HU At) in H.
  rewrite !length_map, Lt, length_app in H. unfold replace_char in H.
  rewrite length_map in H. cbn [length] in H.
  destruct d; [congruence|]. cbn [length] in H. lia.
Qed.

Lemma anchor_keeps_numeric_prefix_witness :
  toc_anchor ucd_ascii (lit "01" ++ hyphen :: lit "Proxy")
    = lit "01" ++ hyphen :: toc_anchor ucd_ascii (lit "Proxy") /\
  toc_anchor ucd_ascii (lit "01" ++ hyphen :: lit "Proxy")
    <> toc_anchor ucd_ascii
         (toc_title ucd_ascii (lit "01" ++ hyphen :: lit "Proxy")).
Proof.
  apply (anchor_keeps_numeric_prefix ucd_ascii (lit "01") (lit "Proxy")).
  - exact ucd_ascii_exact.
  - discriminate.
  - repeat constructor.
  - repeat constructor.
Defined.
